(** * Verification of the ingestion core of redex-tool (tools/redex-tool/Tool.cpp)

    The development embeds, function by function, the anonymous-namespace
    helpers of Tool.cpp ([dex_comparator], [load_root_dexen],
    [load_store_dexen], [list_modules]) and [Tool::init], and proves the
    properties of the ordering policy, of module discovery and of store
    assembly.

    Conventions of the embedding:
    - [std::string] and [boost::filesystem::path] are [string]s of bytes;
    - C [int] is a 32-bit and [long] a 64-bit two's complement integer
      (LP64), carried in [Z] with the wrap-around written out;
    - the directory tree is read through two functions, [readdir] and
      [status], that play the role of the operating system;
    - exceptions are the left summand of the result, and the calls made to
      the external loaders are recorded in a trace of events;
    - [init] describes the runs in which the calls to Boost.Filesystem
      return, [init_checked] adds the ones in which they throw. *)

From Stdlib Require Import ZArith List String Ascii Bool Lia.
From Stdlib Require Import Permutation Sorted.
Import ListNotations.

Local Open Scope string_scope.
Local Open Scope list_scope.
Local Open Scope Z_scope.

(* ================================================================== *)
(** ** Bytes and the C library routines the comparator calls            *)
(* ================================================================== *)

Module CLib.

(** A [char] read as [unsigned char]. *)
Definition byte (c : ascii) : Z := Z.of_N (N_of_ascii c).

(** [strcmp]: the difference of the first two bytes that differ, both
    read as [unsigned char]; a NUL byte ends either argument.  This is
    the value returned by the portable C implementations (glibc's
    string/strcmp.c, musl, bionic). *)
Fixpoint strcmp (a b : string) : Z :=
  match a, b with
  | EmptyString, EmptyString => 0
  | EmptyString, String d _ => 0 - byte d
  | String c _, EmptyString => byte c
  | String c a', String d b' =>
      if Ascii.eqb c d
      then (if Ascii.eqb c zero then 0 else strcmp a' b')
      else byte c - byte d
  end.

(** [strcmp] as the implementations that normalise their result return
    it: only the sign, as -1, 0 or 1. *)
Definition strcmp_sign (a b : string) : Z := Z.sgn (strcmp a b).

(** [isspace] in the C locale: space, \t, \n, \v, \f, \r. *)
Definition isspace (c : ascii) : bool :=
  (byte c =? 32) || ((9 <=? byte c) && (byte c <=? 13)).

Definition isdigit (c : ascii) : bool :=
  (48 <=? byte c) && (byte c <=? 57).

Fixpoint skip_space (s : string) : string :=
  match s with
  | String c s' => if isspace c then skip_space s' else s
  | EmptyString => s
  end.

(** The decimal value of the leading run of digits, accumulated from [acc]. *)
Fixpoint digits_value (acc : Z) (s : string) : Z :=
  match s with
  | String c s' =>
      if isdigit c then digits_value (acc * 10 + (byte c - 48)) s' else acc
  | EmptyString => acc
  end.

Definition LONG_MAX : Z := 2 ^ 63 - 1.
Definition LONG_MIN : Z := - 2 ^ 63.
Definition INT_MAX : Z := 2 ^ 31 - 1.
Definition INT_MIN : Z := - 2 ^ 31.

(** The sign and the text that follows it, as [strtol] reads them: white
    space is skipped, then one optional [-] or [+]. *)
Definition sign_and_digits (s : string) : bool * string :=
  match skip_space s with
  | String "-"%char r => (true, r)
  | String "+"%char r => (false, r)
  | s1 => (false, s1)
  end.

(** [strtol (s, NULL, 10)]: white space, an optional sign, then digits;
    the result saturates at the bounds of [long]. *)
Definition strtol (s : string) : Z :=
  let '(negative, digits) := sign_and_digits s in
  let v := digits_value 0 digits in
  if negative
  then (if 2 ^ 63 <? v then LONG_MIN else - v)
  else (if LONG_MAX <? v then LONG_MAX else v).

(** The conversion of a [long] to [int]: the low 32 bits, signed. *)
Definition to_int (z : Z) : Z := (z + 2 ^ 31) mod 2 ^ 32 - 2 ^ 31.

(** [atoi (s)] is [(int) strtol (s, NULL, 10)]. *)
Definition atoi (s : string) : Z := to_int (strtol s).

End CLib.

(* ================================================================== *)
(** ** [std::string] and [boost::filesystem::path] operations           *)
(* ================================================================== *)

Module Str.

(** [s.rfind(c)] for a one-character needle: the index of the last
    occurrence of [c], [None] standing for [npos]. *)
Fixpoint rfind (c : ascii) (s : string) : option nat :=
  match s with
  | EmptyString => None
  | String d s' =>
      match rfind c s' with
      | Some i => Some (S i)
      | None => if Ascii.eqb d c then Some 0%nat else None
      end
  end.

(** [s.substr(pos)], for [pos <= s.size()]. *)
Fixpoint substr (pos : nat) (s : string) : string :=
  match pos, s with
  | O, _ => s
  | S p, String _ s' => substr p s'
  | S _, EmptyString => EmptyString
  end.

(** [s.substr(0, n)]. *)
Fixpoint prefix (n : nat) (s : string) : string :=
  match n, s with
  | S m, String c s' => String c (prefix m s')
  | _, _ => EmptyString
  end.

(** [s.rfind(c) + 1] in [size_t] arithmetic: [npos + 1] wraps to 0. *)
Definition rfind_plus_1 (c : ascii) (s : string) : nat :=
  match rfind c s with
  | Some i => S i
  | None => O
  end.

Definition is_found (r : option nat) : bool :=
  match r with Some _ => true | None => false end.

End Str.

Module Path.

Definition path : Type := string.

Definition preferred_separator : ascii := "/"%char.

(** [p.filename()]: the part after the last separator.  Every path the
    tool takes the file name of is a directory entry [dir/name] with
    [name] non-empty, where this is what boost computes (the entries of
    the bare root name [//], which boost reads as part of the name, set
    aside). *)
Definition filename (p : path) : string :=
  Str.substr (Str.rfind_plus_1 preferred_separator p) p.

Definition is_dot_or_dotdot (n : string) : bool :=
  String.eqb n "." || String.eqb n "..".

(** [p.stem()]: the file name up to its last dot. *)
Definition stem (p : path) : string :=
  let name := filename p in
  if is_dot_or_dotdot name then name
  else match Str.rfind "."%char name with
       | None => name
       | Some pos => Str.prefix pos name
       end.

(** [p.extension()]: the file name from its last dot on. *)
Definition extension (p : path) : string :=
  let name := filename p in
  if is_dot_or_dotdot name then EmptyString
  else match Str.rfind "."%char name with
       | None => EmptyString
       | Some pos => Str.substr pos name
       end.

(** [p += c] and [p += s]: plain concatenation. *)
Definition append_char (p : path) (c : ascii) : path :=
  String.append p (String c EmptyString).
Definition append_str (p : path) (s : string) : path := String.append p s.

(** [dir / name], as the directory iterator builds its entries: a
    separator is inserted unless [dir] already ends with one. *)
Fixpoint ends_with_separator (p : path) : bool :=
  match p with
  | EmptyString => false
  | String c EmptyString => Ascii.eqb c preferred_separator
  | String _ p' => ends_with_separator p'
  end.

Definition slash (dir : path) (name : string) : path :=
  if ends_with_separator dir || String.eqb dir "" then String.append dir name
  else String.append dir (String preferred_separator name).

End Path.

(* ================================================================== *)
(** ** The ordering policy: [dex_comparator] (Tool.cpp, lines 28-44)    *)
(* ================================================================== *)

Section Comparator.

(** The comparator over an arbitrary [strcmp]. *)
Variable strcmp_impl : string -> string -> Z.

Definition dex_comparator_with (a b : Path.path) : bool :=
  let as_ := Path.stem a in
  let bs := Path.stem b in
  let adashed := Str.is_found (Str.rfind "-"%char as_) in
  let bdashed := Str.is_found (Str.rfind "-"%char bs) in
  if negb adashed && bdashed then true
  else if adashed && negb bdashed then false
  else if negb adashed && negb bdashed then
    1 <? strcmp_impl as_ bs
  else
    let anum := CLib.atoi (Str.substr (Str.rfind_plus_1 "-"%char as_) as_) in
    let bnum := CLib.atoi (Str.substr (Str.rfind_plus_1 "-"%char bs) bs) in
    anum <? bnum.

End Comparator.

Definition dex_comparator : Path.path -> Path.path -> bool :=
  dex_comparator_with CLib.strcmp.

(** What the comparator reads off a name. *)
Definition dashed (p : Path.path) : bool :=
  Str.is_found (Str.rfind "-"%char (Path.stem p)).

Definition suffix (p : Path.path) : string :=
  Str.substr (Str.rfind_plus_1 "-"%char (Path.stem p)) (Path.stem p).

Definition suffix_number (p : Path.path) : Z := CLib.atoi (suffix p).

(* ================================================================== *)
(** ** [std::sort] (Tool.cpp, line 57)                                  *)
(* ================================================================== *)

(** The standard fixes [std::sort] only through its postcondition.  The
    routine embedded here is the one libstdc++ runs on a range of at most
    16 elements, [__insertion_sort]: each element in turn is moved to the
    front when it compares below the first one, and is otherwise walked
    leftwards by [__unguarded_linear_insert].  The sorted part of the
    range is kept with its last element first.

    On a longer range libstdc++ partitions first (introsort), and the
    order it gives to elements the comparator does not tell apart is
    another one.  What is stated below about the order of [std_sort] is
    therefore stated for ranges of at most 16 elements, or for ranges on
    which the postcondition leaves one order only; what is stated for
    every range holds of any rearrangement. *)
Section StdSort.

Context {A : Type}.
Variable comp : A -> A -> bool.

Fixpoint unguarded_linear_insert (val : A) (rprefix : list A) : list A :=
  match rprefix with
  | [] => [val]
  | next :: rest =>
      if comp val next then next :: unguarded_linear_insert val rest
      else val :: rprefix
  end.

Definition insertion_step (rprefix : list A) (val : A) : list A :=
  match rev rprefix with
  | [] => [val]
  | first :: _ =>
      if comp val first then rprefix ++ [val]
      else unguarded_linear_insert val rprefix
  end.

Definition std_sort (l : list A) : list A :=
  rev (fold_left insertion_step l []).

(** The postcondition of [std::sort]: a rearrangement of the input in
    which no later element compares below an earlier one. *)
Definition is_sorted (l : list A) : Prop :=
  StronglySorted (fun x y => comp y x = false) l.

Definition sort_post (input output : list A) : Prop :=
  Permutation input output /\ is_sorted output.

End StdSort.

(* ================================================================== *)
(** ** The world outside Tool.cpp                                       *)
(* ================================================================== *)

(** The file system, as [boost::filesystem] shows it when its calls
    return: the entry names of a directory in iteration order, and the
    type of the file a path resolves to ([None] when nothing is there).
    The calls that throw [filesystem_error] instead of returning are
    added further down ([faults], [init_checked]). *)
Inductive file_type : Type :=
  | regular_file
  | directory_file
  | other_file.

Record filesystem : Type := {
  readdir : Path.path -> list string;
  status : Path.path -> option file_type
}.

Definition is_regular_file (fs : filesystem) (p : Path.path) : bool :=
  match status fs p with Some regular_file => true | _ => false end.

Definition is_directory (fs : filesystem) (p : Path.path) : bool :=
  match status fs p with Some directory_file => true | _ => false end.

Definition exists_ (fs : filesystem) (p : Path.path) : bool :=
  match status fs p with Some _ => true | None => false end.

(** The entries produced by [fs::directory_iterator it(dir)]. *)
Definition directory_iterator (fs : filesystem) (dir : Path.path) : list Path.path :=
  map (Path.slash dir) (readdir fs dir).

(** Modelled from the spec: the declaration of [DexMetadata] (DexStore.h)
    is not part of Tool.cpp; a module descriptor carries the module name,
    its dependencies and the ordered list of its container files. *)
Record DexMetadata : Type := {
  id : string;
  dependencies : list string;
  files : list string
}.

Definition get_files (m : DexMetadata) : list string := files m.

(** What a run can throw: the two exceptions of Tool.cpp itself, the
    exceptions of the container loader and of the metadata parser, and
    the [filesystem_error] of Boost.Filesystem, with the path of the call
    that failed. *)
Inductive exn : Type :=
  | invalid_argument (what : string)
  | runtime_error (what : string)
  | load_failure (dex : string)
  | parse_failure (metadata : string)
  | filesystem_error (path : string).

(** What a run does to the outside world, in the order it does it. *)
Inductive event : Type :=
  | Stdout (line : string)
  | LoadJar (jar : string)
  | LoadDex (dex : string)
  | ParseMetadata (metadata : string)
  | InitReachableClasses.

(** Computations that log events and may throw. *)
Definition M (A : Type) : Type := (list event * (exn + A))%type.

Definition ret {A} (a : A) : M A := ([], inr a).

Definition throw {A} (e : exn) : M A := ([], inl e).

Definition emit (e : event) : M unit := ([e], inr tt).

Definition bind {A B} (m : M A) (k : A -> M B) : M B :=
  match m with
  | (t, inl e) => (t, inl e)
  | (t, inr a) => let '(t', r) := k a in (t ++ t', r)
  end.

Notation "x <- m ;; k" := (bind m (fun x => k))
  (at level 61, m at next level, right associativity).
Notation "m ;;; k" := (bind m (fun _ => k))
  (at level 61, right associativity).

(** A range-based [for] whose body updates a local object [s]. *)
Fixpoint for_each {A S} (body : A -> S -> M S) (xs : list A) (s : S) : M S :=
  match xs with
  | [] => ret s
  | x :: xs' => s' <- body x s ;; for_each body xs' s'
  end.

Definition emplace_back {A} (v : list A) (x : A) : list A := v ++ [x].

(** [boost::split(result, s, pred)] with the default
    [token_compress_off]: one token per delimiter plus one. *)
Fixpoint split (is_delim : ascii -> bool) (s : string) : list string :=
  match s with
  | EmptyString => [EmptyString]
  | String c s' =>
      if is_delim c then EmptyString :: split is_delim s'
      else match split is_delim s' with
           | t :: ts => String c t :: ts
           | [] => [String c EmptyString]
           end
  end.

(** [boost::is_any_of(":,")]. *)
Definition delim (c : ascii) : bool :=
  Ascii.eqb c ":"%char || Ascii.eqb c ","%char.

(** The projections of a trace on each kind of external call. *)
Definition jar_of (e : event) : list string :=
  match e with LoadJar j => [j] | _ => [] end.

Definition dex_of (e : event) : list string :=
  match e with LoadDex d => [d] | _ => [] end.

Definition jars_attempted (t : list event) : list string := flat_map jar_of t.

Definition dexes_attempted (t : list event) : list string := flat_map dex_of t.

(** The external capabilities a run depends on: the file system, the
    archive loader of JarLoader.h (which reports failure by returning
    false), the container loader of DexLoader.h and the metadata parser
    of DexStore.h (which report failure by throwing).  The verdict of a
    loader on a path is taken to be a function of that path, and the
    file system not to change during a run.  The scope construction and
    the reachability analysis that end [Tool::init] are outside this
    development and are recorded as one event. *)
Record World (DexClasses : Type) : Type := {
  fs : filesystem;
  load_jar_file : string -> bool;
  load_classes_from_dex : string -> option DexClasses;
  parse : string -> option DexMetadata
}.

Arguments fs {DexClasses} _.
Arguments load_jar_file {DexClasses} _ _.
Arguments load_classes_from_dex {DexClasses} _ _.
Arguments parse {DexClasses} _ _.

(** Modelled from the spec: the declaration of [DexStore] (DexStore.h) is
    not part of Tool.cpp; a store is a named (through its metadata),
    ordered collection of loaded class batches. *)
Record DexStore (DexClasses : Type) : Type := {
  metadata : DexMetadata;
  dexen : list DexClasses
}.

Arguments metadata {DexClasses} _.
Arguments dexen {DexClasses} _.

Definition DexStoresVector (DexClasses : Type) : Type := list (DexStore DexClasses).

(* ================================================================== *)
(** ** Tool.cpp                                                         *)
(* ================================================================== *)

Section Tool.

Context {DexClasses : Type}.
Variable w : World DexClasses.

(** [DexStore store(name)]. *)
Definition DexStore_named (name : string) : DexStore DexClasses :=
  {| metadata := {| id := name; dependencies := []; files := [] |};
     dexen := [] |}.

(** [DexStore store(store_metadata)]. *)
Definition DexStore_of (m : DexMetadata) : DexStore DexClasses :=
  {| metadata := m; dexen := [] |}.

Definition get_name (store : DexStore DexClasses) : string :=
  id (metadata store).

Definition add_classes (store : DexStore DexClasses) (classes : DexClasses)
  : DexStore DexClasses :=
  {| metadata := metadata store;
     dexen := emplace_back (dexen store) classes |}.

(** The calls that leave Tool.cpp. *)
Definition call_load_jar_file (jar : string) : M bool :=
  emit (LoadJar jar) ;;; ret (load_jar_file w jar).

Definition call_load_classes_from_dex (dex : string) : M DexClasses :=
  emit (LoadDex dex) ;;;
  match load_classes_from_dex w dex with
  | Some classes => ret classes
  | None => throw (load_failure dex)
  end.

Definition call_parse (metadata_path : string) : M DexMetadata :=
  emit (ParseMetadata metadata_path) ;;;
  match parse w metadata_path with
  | Some m => ret m
  | None => throw (parse_failure metadata_path)
  end.

(** Lines 48-57: the container files found in the directory, sorted
    (the order is that of the code for up to 16 files, see [std_sort]). *)
Definition discovered_dexen (dexen_dir_path : Path.path) : list Path.path :=
  fold_left
    (fun dexen file =>
       if is_regular_file (fs w) file
          && String.eqb (Path.extension file) ".dex"
       then emplace_back dexen file
       else dexen)
    (directory_iterator (fs w) dexen_dir_path) [].

Definition sorted_dexen (dexen_dir_path : Path.path) : list Path.path :=
  std_sort dex_comparator (discovered_dexen dexen_dir_path).

(** Lines 46-64. *)
Definition load_root_dexen (store : DexStore DexClasses)
  (dexen_dir_path : Path.path) : M (DexStore DexClasses) :=
  for_each
    (fun dex store =>
       emit (Stdout (String.append "Loading " dex)) ;;;
       classes <- call_load_classes_from_dex dex ;;
       ret (add_classes store classes))
    (sorted_dexen dexen_dir_path) store.

(** Lines 66-72. *)
Definition load_store_dexen (store : DexStore DexClasses)
  (store_metadata : DexMetadata) : M (DexStore DexClasses) :=
  for_each
    (fun file_path store =>
       emit (Stdout (String.append "Loading " file_path)) ;;;
       classes <- call_load_classes_from_dex file_path ;;
       ret (add_classes store classes))
    (get_files store_metadata) store.

(** Lines 79-81: the metadata path [list_modules] probes for an entry. *)
Definition probed_metadata (file : Path.path) : Path.path :=
  Path.append_str
    (Path.append_char file Path.preferred_separator)
    (String.append (Path.filename file) ".json").

(** Lines 74-89. *)
Definition list_modules (path : Path.path) : list string :=
  fold_left
    (fun modules file =>
       let metadata := probed_metadata file in
       if is_directory (fs w) file
          && is_regular_file (fs w) metadata
          && exists_ (fs w) metadata
       then emplace_back modules (Path.filename file)
       else modules)
    (directory_iterator (fs w) path) [].

(** Lines 137-141: the metadata path [Tool::init] parses for a module. *)
Definition metadata_path_of (dexen_dir_path : Path.path) (module : string)
  : Path.path :=
  Path.append_str
    (Path.append_char
       (Path.append_str
          (Path.append_char dexen_dir_path Path.preferred_separator)
          module)
       Path.preferred_separator)
    (String.append module ".json").

(** Lines 136-148, the body of the loop over the modules. *)
Definition load_module (dexen_dir_path : Path.path) (module : string)
  (stores : DexStoresVector DexClasses) : M (DexStoresVector DexClasses) :=
  store_metadata <- call_parse (metadata_path_of dexen_dir_path module) ;;
  store <- load_store_dexen (DexStore_of store_metadata) store_metadata ;;
  ret (emplace_back stores store).

(** Lines 116-125. *)
Definition load_jars (system_jar_paths : string) : M unit :=
  for_each
    (fun system_jar (_ : unit) =>
       emit (Stdout (String.append "Loading " system_jar)) ;;;
       ok <- call_load_jar_file system_jar ;;
       if negb ok
       then throw (runtime_error
                     (String.append "Could not load system jar file '"
                        (String.append system_jar "'")))
       else ret tt)
    (split delim system_jar_paths) tt.

(** Lines 107-160: [Tool::init], in the runs in which the calls to
    Boost.Filesystem return. *)
Definition init (system_jar_paths apk_dir dexen_dir_str : string)
  : M (DexStoresVector DexClasses) :=
  let dexen_dir_path : Path.path := dexen_dir_str in
  if negb (is_directory (fs w) dexen_dir_path)
  then throw (invalid_argument
                (String.append "'"
                   (String.append dexen_dir_str "' is not a directory")))
  else
    load_jars system_jar_paths ;;;
    root_store <- load_root_dexen (DexStore_named "dex") dexen_dir_path ;;
    let stores := emplace_back [] root_store in
    stores <- for_each (load_module dexen_dir_path)
                (list_modules dexen_dir_path) stores ;;
    emit (Stdout "Initializing reachable classes") ;;;
    emit InitReachableClasses ;;;
    ret stores.

End Tool.

(* ================================================================== *)
(** ** The throwing calls of Boost.Filesystem                           *)
(* ================================================================== *)

(** Tool.cpp calls the overloads of [fs::is_directory],
    [fs::is_regular_file] and [fs::exists] that throw [filesystem_error]
    when the status of the path cannot be read (any error but "no such
    file"), and the constructor of [fs::directory_iterator], which throws
    it when the directory cannot be opened or read.  [faults] tells for
    which paths this happens. *)
Record faults : Type := {
  stat_fails : Path.path -> bool;
  opendir_fails : Path.path -> bool
}.

(** The first entry, in iteration order, at which a probe throws. *)
Fixpoint first_fault {X} (probe : X -> option Path.path) (xs : list X)
  : option Path.path :=
  match xs with
  | [] => None
  | x :: xs' =>
      match probe x with
      | Some p => Some p
      | None => first_fault probe xs'
      end
  end.

(** Lines 50-52: the iterator is opened, then [fs::is_regular_file] reads
    the status of every entry. *)
Definition discovery_fault (f : faults) (fs : filesystem) (dir : Path.path)
  : option Path.path :=
  if opendir_fails f dir then Some dir
  else first_fault
         (fun file => if stat_fails f file then Some file else None)
         (directory_iterator fs dir).

(** Lines 77-84: the iterator is opened, then [fs::is_directory] reads the
    status of every entry and, for a directory, [fs::is_regular_file]
    reads the status of its metadata path. *)
Definition module_listing_fault (f : faults) (fs : filesystem)
  (dir : Path.path) : option Path.path :=
  if opendir_fails f dir then Some dir
  else first_fault
         (fun file =>
            if stat_fails f file then Some file
            else if is_directory fs file && stat_fails f (probed_metadata file)
                 then Some (probed_metadata file)
                 else None)
         (directory_iterator fs dir).

Section CheckedTool.

Context {DexClasses : Type}.
Variable f : faults.
Variable w : World DexClasses.

(** Lines 46-64, discovery throwing before any file is loaded. *)
Definition load_root_dexen_checked (store : DexStore DexClasses)
  (dexen_dir_path : Path.path) : M (DexStore DexClasses) :=
  match discovery_fault f (fs w) dexen_dir_path with
  | Some p => throw (filesystem_error p)
  | None => load_root_dexen w store dexen_dir_path
  end.

(** Lines 74-89. *)
Definition list_modules_checked (path : Path.path) : M (list string) :=
  match module_listing_fault f (fs w) path with
  | Some p => throw (filesystem_error p)
  | None => ret (list_modules w path)
  end.

(** Lines 107-160: [Tool::init], with the calls to Boost.Filesystem that
    throw. *)
Definition init_checked (system_jar_paths apk_dir dexen_dir_str : string)
  : M (DexStoresVector DexClasses) :=
  let dexen_dir_path : Path.path := dexen_dir_str in
  if stat_fails f dexen_dir_path
  then throw (filesystem_error dexen_dir_path)
  else if negb (is_directory (fs w) dexen_dir_path)
  then throw (invalid_argument
                (String.append "'"
                   (String.append dexen_dir_str "' is not a directory")))
  else
    load_jars w system_jar_paths ;;;
    root_store <- load_root_dexen_checked (DexStore_named "dex")
                    dexen_dir_path ;;
    let stores := emplace_back [] root_store in
    modules <- list_modules_checked dexen_dir_path ;;
    stores <- for_each (load_module w dexen_dir_path) modules stores ;;
    emit (Stdout "Initializing reachable classes") ;;;
    emit InitReachableClasses ;;;
    ret stores.

End CheckedTool.

(* ================================================================== *)
(** ** Sample worlds                                                    *)
(* ================================================================== *)

Module Sample.

Fixpoint lookup {V} (table : list (string * V)) (k : string) : option V :=
  match table with
  | [] => None
  | (k', v) :: rest => if String.eqb k' k then Some v else lookup rest k
  end.

Definition fs_of (dirs : list (string * list string))
  (files : list (string * file_type)) : filesystem :=
  {| readdir := fun d => match lookup dirs d with Some l => l | None => [] end;
     status := lookup files |}.

(** A dexen directory with four container files, a text file, one module
    ([modA]), one directory without metadata ([modB]) and one directory
    whose metadata file is misnamed ([modC]). *)
Definition root : string := "/tmp/redex_dexen".

Definition disk : filesystem :=
  fs_of
    [ ("/tmp/redex_dexen",
        ["secondary-2.dex"; "modA"; "classes.dex"; "secondary-10.dex";
         "modB"; "notes.txt"; "secondary-1.dex"; "modC"]);
      ("/tmp/redex_dexen/modA", ["modA.json"; "b.dex"; "a.dex"]);
      ("/tmp/redex_dexen/modB", []);
      ("/tmp/redex_dexen/modC", ["module_c.json"]) ]
    [ ("/tmp/redex_dexen", directory_file);
      ("/tmp/redex_dexen/secondary-2.dex", regular_file);
      ("/tmp/redex_dexen/classes.dex", regular_file);
      ("/tmp/redex_dexen/secondary-10.dex", regular_file);
      ("/tmp/redex_dexen/secondary-1.dex", regular_file);
      ("/tmp/redex_dexen/notes.txt", regular_file);
      ("/tmp/redex_dexen/modA", directory_file);
      ("/tmp/redex_dexen/modA/modA.json", regular_file);
      ("/tmp/redex_dexen/modA/b.dex", regular_file);
      ("/tmp/redex_dexen/modA/a.dex", regular_file);
      ("/tmp/redex_dexen/modB", directory_file);
      ("/tmp/redex_dexen/modC", directory_file);
      ("/tmp/redex_dexen/modC/module_c.json", regular_file) ].

Definition modA_metadata : DexMetadata :=
  {| id := "modA"; dependencies := ["dex"]; files := ["b.dex"; "a.dex"] |}.

(** A batch of classes is represented by the path it was loaded from.
    Every archive but the empty path and [b.jar] loads; the container
    files named in [broken] do not load. *)
Definition world (broken : list string) : World string :=
  {| fs := disk;
     load_jar_file := fun jar =>
       negb (String.eqb jar "b.jar") && negb (String.eqb jar "");
     load_classes_from_dex := fun dex =>
       if existsb (String.eqb dex) broken then None else Some dex;
     parse := fun p =>
       if String.eqb p "/tmp/redex_dexen/modA/modA.json"
       then Some modA_metadata else None |}.

(** The same world with a metadata parser that rejects every file. *)
Definition world_unparsed : World string :=
  {| fs := disk;
     load_jar_file := fun _ => true;
     load_classes_from_dex := fun dex => Some dex;
     parse := fun _ => None |}.

(** A file system without faults, one on which the status of the dexen
    directory cannot be read, and one on which the status of [modB]
    cannot be read. *)
Definition no_faults : faults :=
  {| stat_fails := fun _ => false; opendir_fails := fun _ => false |}.

Definition locked_root : faults :=
  {| stat_fails := fun p => String.eqb p root;
     opendir_fails := fun _ => false |}.

Definition locked_modB : faults :=
  {| stat_fails := fun p => String.eqb p "/tmp/redex_dexen/modB";
     opendir_fails := fun _ => false |}.

(** The run over [disk] in which everything loads, and what it returns. *)
Definition good_jars : string := "a.jar:c.jar".

Definition good_stores : DexStoresVector string :=
  [ {| metadata := {| id := "dex"; dependencies := []; files := [] |};
       dexen := ["/tmp/redex_dexen/classes.dex";
                 "/tmp/redex_dexen/secondary-1.dex";
                 "/tmp/redex_dexen/secondary-2.dex";
                 "/tmp/redex_dexen/secondary-10.dex"] |};
    {| metadata := modA_metadata; dexen := ["b.dex"; "a.dex"] |} ].

Definition good_trace : list event :=
  fst (init (world []) good_jars "/apk" root).

End Sample.

(* ================================================================== *)
(** ** Vocabulary of the statements                                     *)
(* ================================================================== *)

Section SortVocabulary.

Context {A : Type}.
Variable comp : A -> A -> bool.
Variable rank : A -> Z.

(** On the elements of [l] the comparator is "has a smaller rank". *)
Definition ranked_on (l : list A) : Prop :=
  forall x y, In x l -> In y l -> comp x y = (rank x <? rank y).

Definition ascending (l : list A) : Prop :=
  StronglySorted (fun x y => rank x <= rank y) l.

Definition descending (l : list A) : Prop :=
  StronglySorted (fun x y => rank y <= rank x) l.

End SortVocabulary.

(** The position the comparator gives a name: names without a dash come
    first, below every [int]; a name with a dash stands at its number. *)
Definition sort_rank (p : Path.path) : Z :=
  if dashed p then suffix_number p else CLib.INT_MIN - 1.

(** The decimal value written at the start of [s], before any
    saturation or truncation. *)
Definition magnitude (s : string) : Z :=
  CLib.digits_value 0 (snd (CLib.sign_and_digits s)).

(** [s] does not start with a number: after white space and an optional
    sign there is no digit. *)
Definition non_numeric (s : string) : bool :=
  match snd (CLib.sign_and_digits s) with
  | String c _ => negb (CLib.isdigit c)
  | EmptyString => true
  end.


(** [s] holds no delimiter of the archive list. *)
Fixpoint delimiter_free (s : string) : bool :=
  match s with
  | EmptyString => true
  | String c s' => negb (delim c) && delimiter_free s'
  end.

(** The number of delimiters in an archive list. *)
Fixpoint count_delims (s : string) : nat :=
  match s with
  | EmptyString => O
  | String c s' => if delim c then S (count_delims s') else count_delims s'
  end.

(** The archive list that names [xs], separated by [sep]. *)
Fixpoint join (sep : ascii) (xs : list string) : string :=
  match xs with
  | [] => EmptyString
  | [x] => x
  | x :: xs' => String.append x (String sep (join sep xs'))
  end.

(** A comparator that never contradicts a rank: what compares below
    ranks no higher, what does not ranks no lower. *)
Definition follows_rank {A} (comp : A -> A -> bool) (rank : A -> Z) : Prop :=
  forall x y, if comp x y then rank x <= rank y else rank y <= rank x.

(** [p] is a name with a dash whose number is [k]. *)
Definition tied_at (k : Z) (p : Path.path) : bool :=
  dashed p && (suffix_number p =? k).

(** The bound below which libstdc++ sorts by insertion alone. *)
Definition S_threshold : nat := 16.

(** The metadata of the primary store, [DexStore root_store("dex")]. *)
Definition primary_metadata : DexMetadata :=
  {| id := "dex"; dependencies := []; files := [] |}.

(** The events of loading the container files [xs], one after the other,
    and of registering the archives [xs]. *)
Definition load_events (xs : list string) : list event :=
  flat_map (fun x => [Stdout (String.append "Loading " x); LoadDex x]) xs.

Definition jar_events (xs : list string) : list event :=
  flat_map (fun x => [Stdout (String.append "Loading " x); LoadJar x]) xs.

(** The exception that names the archive [jar]. *)
Definition jar_error (jar : string) : exn :=
  runtime_error
    (String.append "Could not load system jar file '" (String.append jar "'")).

Section RunVocabulary.

Context {DexClasses : Type}.
Variable w : World DexClasses.

Definition dex_ok (dex : string) : bool :=
  match load_classes_from_dex w dex with Some _ => true | None => false end.

(** The loader turns the file [dex] into the batch [classes]. *)
Definition loads_as (dex : string) (classes : DexClasses) : Prop :=
  load_classes_from_dex w dex = Some classes.

(** [store] is the store of the module [module] of the directory [dir]:
    its metadata is the parsed metadata file and its batches are the
    declared files, loaded in the declared order. *)
Definition module_store_of (dir : Path.path) (module : string)
  (store : DexStore DexClasses) : Prop :=
  exists m,
    parse w (metadata_path_of dir module) = Some m
    /\ metadata store = m
    /\ Forall2 loads_as (get_files m) (dexen store).

(** The entry [name] of [dir] meets the condition of the spec: it is a
    directory holding a regular file [dir/name/name.json]. *)
Definition qualifies (dir : Path.path) (name : string) : Prop :=
  status (fs w) (Path.slash dir name) = Some directory_file
  /\ status (fs w)
       (String.append (Path.slash dir name)
          (String.append "/" (String.append name ".json")))
     = Some regular_file.

(** The events of assembling the stores of the modules [modules]. *)
Definition module_events (dir : Path.path) (modules : list string) : list event :=
  flat_map
    (fun module =>
       ParseMetadata (metadata_path_of dir module)
       :: match parse w (metadata_path_of dir module) with
          | Some m => load_events (get_files m)
          | None => []
          end)
    modules.

(** In the run [m], a container file that was handed to the loader and
    did not load is the reason the run threw. *)
Definition surfaces {A} (m : M A) : Prop :=
  forall p, In p (dexes_attempted (fst m)) -> dex_ok p = false ->
            snd m = inl (load_failure p).

(** The run [m] does not touch the archive loader. *)
Definition registers_no_jar {A} (m : M A) : Prop :=
  jars_attempted (fst m) = [].

(** The body shared by the two loading loops (lines 59-63 and 67-71). *)
Definition load_body (dex : string) (store : DexStore DexClasses)
  : M (DexStore DexClasses) :=
  emit (Stdout (String.append "Loading " dex)) ;;;
  classes <- call_load_classes_from_dex w dex ;;
  ret (add_classes store classes).

(** The body of the archive loop (lines 120-125). *)
Definition jar_body (system_jar : string) (_ : unit) : M unit :=
  emit (Stdout (String.append "Loading " system_jar)) ;;;
  ok <- call_load_jar_file w system_jar ;;
  if negb ok then throw (jar_error system_jar) else ret tt.

(** What [Tool::init] does once the archives are registered
    (lines 127-159). *)
Definition after_jars (dir : Path.path) : M (DexStoresVector DexClasses) :=
  root_store <- load_root_dexen w (DexStore_named "dex") dir ;;
  stores <- for_each (load_module w dir) (list_modules w dir)
              (emplace_back [] root_store) ;;
  emit (Stdout "Initializing reachable classes") ;;;
  emit InitReachableClasses ;;;
  ret stores.

(** The entry [name] of [dir] is a container file of the primary store:
    a regular file whose name ends in ".dex". *)
Definition is_dex_entry (dir : Path.path) (name : string) : bool :=
  is_regular_file (fs w) (Path.slash dir name)
  && String.eqb (Path.extension name) ".dex".

(** [qualifies], as a test. *)
Definition qualifiesb (dir : Path.path) (name : string) : bool :=
  is_directory (fs w) (Path.slash dir name)
  && is_regular_file (fs w)
       (String.append (Path.slash dir name)
          (String.append "/" (String.append name ".json"))).

(** The batches the loader makes of the files [xs]. *)
Definition classes_of (xs : list string) : list DexClasses :=
  flat_map
    (fun x => match load_classes_from_dex w x with
              | Some c => [c]
              | None => []
              end)
    xs.

(** The files the metadata of [module] declares. *)
Definition declared_files (dir : Path.path) (module : string) : list string :=
  match parse w (metadata_path_of dir module) with
  | Some m => get_files m
  | None => []
  end.

(** The metadata of [module] parses and every file it declares loads. *)
Definition module_ok (dir : Path.path) (module : string) : Prop :=
  exists m,
    parse w (metadata_path_of dir module) = Some m
    /\ Forall (fun f => dex_ok f = true) (get_files m).

(** The stores of the modules [modules], each with the batches of its
    declared files. *)
Definition module_stores (dir : Path.path) (modules : list string)
  : DexStoresVector DexClasses :=
  flat_map
    (fun module =>
       match parse w (metadata_path_of dir module) with
       | Some m => [{| metadata := m; dexen := classes_of (get_files m) |}]
       | None => []
       end)
    modules.

(** The collection a run over [dir] returns when nothing fails, and the
    trace it leaves. *)
Definition expected_stores (dir : Path.path) : DexStoresVector DexClasses :=
  {| metadata := primary_metadata;
     dexen := classes_of (sorted_dexen w dir) |}
  :: module_stores dir (list_modules w dir).

Definition expected_trace (jars : string) (dir : Path.path) : list event :=
  jar_events (split delim jars)
  ++ load_events (sorted_dexen w dir)
  ++ module_events dir (list_modules w dir)
  ++ [Stdout "Initializing reachable classes"; InitReachableClasses].

(** The external call [ev] is the reason for the exception [e]. *)
Definition caused_by (ev : event) (e : exn) : Prop :=
  match ev with
  | LoadJar j => e = jar_error j /\ load_jar_file w j = false
  | LoadDex p => e = load_failure p /\ load_classes_from_dex w p = None
  | ParseMetadata q => e = parse_failure q /\ parse w q = None
  | Stdout _ => False
  | InitReachableClasses => False
  end.

(** When the run [m] throws, its last event is the reason. *)
Definition fails_at_last {A} (m : M A) : Prop :=
  forall e, snd m = inl e ->
            exists t ev, fst m = t ++ [ev] /\ caused_by ev e.

(** The run [m] does not start the reachability analysis. *)
Definition reach_free {A} (m : M A) : Prop :=
  ~ In InitReachableClasses (fst m).

End RunVocabulary.

Section CheckedVocabulary.

Context {DexClasses : Type}.
Variable f : faults.
Variable w : World DexClasses.

(** When the run [m] over [dir] throws, either a call to the file system
    failed during discovery, or its last event is the reason. *)
Definition explained (dir : Path.path) {A} (m : M A) : Prop :=
  forall e, snd m = inl e ->
    (exists p, e = filesystem_error p
               /\ (discovery_fault f (fs w) dir = Some p
                   \/ module_listing_fault f (fs w) dir = Some p))
    \/ (exists t ev, fst m = t ++ [ev] /\ caused_by w ev e).

End CheckedVocabulary.

(** The four container files of the example, as [readdir] may list them,
    and the order they are to be loaded in. *)
Definition example_names : list string :=
  ["secondary-2.dex"; "classes.dex"; "secondary-10.dex"; "secondary-1.dex"].

Definition example_order : list string :=
  ["classes.dex"; "secondary-1.dex"; "secondary-2.dex"; "secondary-10.dex"].

(* ================================================================== *)
(** ** Facts about [std_sort]                                           *)
(* ================================================================== *)

Section SortFacts.

Context {A : Type}.
Variable comp : A -> A -> bool.
Variable rank : A -> Z.

Lemma unguarded_linear_insert_perm (val : A) (rp : list A) :
  Permutation (val :: rp) (unguarded_linear_insert comp val rp).
Proof.
  induction rp as [|next rest IH]; simpl.
  - apply Permutation_refl.
  - destruct (comp val next).
    + eapply Permutation_trans; [apply perm_swap|].
      now apply perm_skip.
    + apply Permutation_refl.
Qed.

Lemma insertion_step_perm (rp : list A) (val : A) :
  Permutation (val :: rp) (insertion_step comp rp val).
Proof.
  unfold insertion_step.
  destruct (rev rp) as [|first t] eqn:E.
  - assert (rp = []) as ->.
    { rewrite <- (rev_involutive rp), E. reflexivity. }
    apply Permutation_refl.
  - destruct (comp val first).
    + apply Permutation_cons_append.
    + apply unguarded_linear_insert_perm.
Qed.

Lemma fold_insertion_step_perm (l acc : list A) :
  Permutation (l ++ acc) (fold_left (insertion_step comp) l acc).
Proof.
  revert acc; induction l as [|x l IH]; intros acc; simpl.
  - apply Permutation_refl.
  - eapply Permutation_trans; [|apply IH].
    eapply Permutation_trans; [apply Permutation_middle|].
    apply Permutation_app_head, insertion_step_perm.
Qed.

Lemma std_sort_perm (l : list A) : Permutation l (std_sort comp l).
Proof.
  unfold std_sort.
  eapply Permutation_trans; [|apply Permutation_rev].
  generalize (fold_insertion_step_perm l []).
  now rewrite app_nil_r.
Qed.

Lemma descending_snoc_inv (l : list A) (a : A) :
  descending rank (l ++ [a]) -> Forall (fun x => rank a <= rank x) l.
Proof.
  induction l as [|x l IH]; simpl; intros H.
  - constructor.
  - inversion H as [|? ? Hs Hf]; subst.
    constructor.
    + rewrite Forall_forall in Hf. apply Hf, in_or_app. right. now left.
    + now apply IH.
Qed.

Lemma descending_snoc (l : list A) (a : A) :
  descending rank l -> Forall (fun x => rank a <= rank x) l -> descending rank (l ++ [a]).
Proof.
  induction l as [|x l IH]; simpl; intros Hd Hf.
  - repeat constructor.
  - inversion Hd as [|? ? Hs Hx]; subst.
    inversion Hf as [|? ? Hax Hal]; subst.
    constructor.
    + now apply IH.
    + apply Forall_app. split; [assumption|]. now repeat constructor.
Qed.

Lemma unguarded_linear_insert_descending (val : A) (rp : list A) :
  (forall x, In x rp -> comp val x = (rank val <? rank x)) ->
  descending rank rp -> descending rank (unguarded_linear_insert comp val rp).
Proof.
  induction rp as [|next rest IH]; simpl; intros Hc Hd.
  - repeat constructor.
  - inversion Hd as [|? ? Hs Hf]; subst.
    rewrite (Hc next (or_introl eq_refl)).
    destruct (rank val <? rank next) eqn:E.
    + apply Z.ltb_lt in E.
      constructor.
      * apply IH; [|assumption]. intros x Hx. apply Hc. now right.
      * eapply Permutation_Forall; [apply unguarded_linear_insert_perm|].
        constructor; [lia | assumption].
    + apply Z.ltb_ge in E.
      constructor; [assumption|].
      constructor; [assumption|].
      eapply Forall_impl; [|exact Hf]. simpl. intros; lia.
Qed.

Lemma insertion_step_descending (rp : list A) (val : A) :
  (forall x, In x rp -> comp val x = (rank val <? rank x)) ->
  descending rank rp -> descending rank (insertion_step comp rp val).
Proof.
  intros Hc Hd. unfold insertion_step.
  destruct (rev rp) as [|first t] eqn:E.
  - repeat constructor.
  - assert (Erp : rp = rev t ++ [first]).
    { rewrite <- (rev_involutive rp), E. reflexivity. }
    destruct (comp val first) eqn:Ecmp.
    + rewrite Hc in Ecmp
        by (rewrite Erp; apply in_or_app; right; now left).
      apply Z.ltb_lt in Ecmp.
      apply descending_snoc; [assumption|].
      rewrite Erp in Hd |- *.
      apply Forall_app. split.
      * eapply Forall_impl; [|apply (descending_snoc_inv _ _ Hd)].
        simpl. intros; lia.
      * repeat constructor. lia.
    + now apply unguarded_linear_insert_descending.
Qed.

Lemma fold_insertion_step_descending (l acc : list A) :
  ranked_on comp rank (l ++ acc) -> descending rank acc ->
  descending rank (fold_left (insertion_step comp) l acc).
Proof.
  revert acc; induction l as [|x l IH]; intros acc Hr Hd; simpl.
  - assumption.
  - apply IH.
    + intros a b Ha Hb. apply Hr.
      * apply in_app_or in Ha as [Ha|Ha].
        -- apply in_or_app. left. now right.
        -- apply (Permutation_in _ (Permutation_sym (insertion_step_perm acc x))) in Ha.
           destruct Ha as [->|Ha]; [now left|].
           apply in_or_app. right. assumption.
      * apply in_app_or in Hb as [Hb|Hb].
        -- apply in_or_app. left. now right.
        -- apply (Permutation_in _ (Permutation_sym (insertion_step_perm acc x))) in Hb.
           destruct Hb as [->|Hb]; [now left|].
           apply in_or_app. right. assumption.
    + apply insertion_step_descending; [|assumption].
      intros y Hy. apply Hr; [now left|].
      right. apply in_or_app. now right.
Qed.

Lemma descending_rev (l : list A) : descending rank l -> ascending rank (rev l).
Proof.
  induction l as [|x l IH]; simpl; intros H.
  - constructor.
  - inversion H as [|? ? Hs Hf]; subst.
    specialize (IH Hs).
    clear H Hs. revert IH.
    assert (Hr : Forall (fun y => rank y <= rank x) (rev l)).
    { apply Forall_forall. intros y Hy. rewrite Forall_forall in Hf.
      apply Hf. now apply in_rev. }
    clear Hf. induction (rev l) as [|y r IHr]; intros Ha.
    + repeat constructor.
    + inversion Ha as [|? ? Hs' Hf']; subst.
      inversion Hr as [|? ? Hy Hr']; subst.
      simpl. constructor.
      * now apply IHr.
      * apply Forall_app. split; [assumption|]. now repeat constructor.
Qed.

Lemma std_sort_ascending (l : list A) :
  ranked_on comp rank l -> ascending rank (std_sort comp l).
Proof.
  intros Hr. unfold std_sort. apply descending_rev.
  apply fold_insertion_step_descending.
  - now rewrite app_nil_r.
  - constructor.
Qed.

Lemma rank_injective_on (l : list A) :
  NoDup (map rank l) ->
  forall x y, In x l -> In y l -> rank x = rank y -> x = y.
Proof.
  induction l as [|a l IH]; simpl; intros Hn x y Hx Hy E.
  - contradiction.
  - inversion Hn as [|? ? Hnot Hn']; subst.
    destruct Hx as [->|Hx], Hy as [->|Hy].
    + reflexivity.
    + exfalso. apply Hnot. rewrite E. now apply in_map.
    + exfalso. apply Hnot. rewrite <- E. now apply in_map.
    + now apply IH.
Qed.

Lemma ascending_perm_unique (l l' : list A) :
  NoDup (map rank l) -> Permutation l l' ->
  ascending rank l -> ascending rank l' -> l = l'.
Proof.
  revert l'; induction l as [|x t IH]; intros l' Hn Hp Ha Ha'.
  - apply Permutation_nil in Hp. now subst.
  - destruct l' as [|y t'].
    + apply Permutation_sym, Permutation_nil in Hp. discriminate.
    + inversion Ha as [|? ? Hs Hf]; subst.
      inversion Ha' as [|? ? Hs' Hf']; subst.
      rewrite Forall_forall in Hf, Hf'.
      assert (Hy : In y (x :: t)).
      { eapply Permutation_in; [apply Permutation_sym, Hp|]. now left. }
      assert (Hx : In x (y :: t')).
      { eapply Permutation_in; [apply Hp|]. now left. }
      assert (E : x = y).
      { apply (rank_injective_on (x :: t) Hn); [now left|assumption|].
        destruct Hy as [->|Hy]; [reflexivity|].
        destruct Hx as [->|Hx]; [reflexivity|].
        specialize (Hf _ Hy). specialize (Hf' _ Hx). lia. }
      subst y. f_equal.
      apply IH; [|now apply Permutation_cons_inv in Hp|assumption|assumption].
      simpl in Hn. now inversion Hn.
Qed.

Lemma ranked_on_perm (l l' : list A) :
  Permutation l l' -> ranked_on comp rank l -> ranked_on comp rank l'.
Proof.
  intros Hp Hr x y Hx Hy.
  apply Hr; eapply Permutation_in; try apply Permutation_sym; eassumption.
Qed.

(** Whatever rearrangement meets the postcondition of [std::sort] is the
    one [std_sort] computes, when the ranks tell all elements apart. *)
Lemma sort_post_unique (l out : list A) :
  ranked_on comp rank l -> NoDup (map rank l) ->
  sort_post comp l out -> out = std_sort comp l.
Proof.
  intros Hr Hn [Hp Hs].
  symmetry. apply ascending_perm_unique.
  - eapply Permutation_NoDup; [|exact Hn].
    apply Permutation_map, std_sort_perm.
  - eapply Permutation_trans; [apply Permutation_sym, std_sort_perm | exact Hp].
  - now apply std_sort_ascending.
  - pose proof (ranked_on_perm _ _ Hp Hr) as Hr'.
    unfold is_sorted in Hs. clear Hp.
    induction Hs as [|x t Hs IHs Hf].
    + constructor.
    + constructor.
      * apply IHs. intros a b Ha Hb. apply Hr'; now right.
      * rewrite Forall_forall in Hf |- *. intros y Hy.
        specialize (Hf y Hy).
        rewrite (Hr' y x (or_intror Hy) (or_introl eq_refl)) in Hf.
        apply Z.ltb_ge in Hf. exact Hf.
Qed.

Lemma ascending_is_sorted (l : list A) :
  ranked_on comp rank l -> ascending rank l -> is_sorted comp l.
Proof.
  intros Hr Ha. unfold is_sorted.
  induction Ha as [|x t Hs IHs Hf].
  - constructor.
  - constructor.
    + apply IHs. intros a b Ha Hb. apply Hr; now right.
    + rewrite Forall_forall in Hf |- *. intros y Hy.
      rewrite (Hr y x (or_intror Hy) (or_introl eq_refl)).
      apply Z.ltb_ge. now apply Hf.
Qed.

Lemma std_sort_is_sorted (l : list A) :
  ranked_on comp rank l -> is_sorted comp (std_sort comp l).
Proof.
  intros Hr. apply ascending_is_sorted.
  - exact (ranked_on_perm _ _ (std_sort_perm l) Hr).
  - now apply std_sort_ascending.
Qed.

Lemma std_sort_perm_invariant (l l' : list A) :
  ranked_on comp rank l -> NoDup (map rank l) -> Permutation l l' ->
  std_sort comp l' = std_sort comp l.
Proof.
  intros Hr Hn Hp.
  apply sort_post_unique; [assumption|assumption|].
  split.
  - eapply Permutation_trans; [exact Hp | apply std_sort_perm].
  - apply std_sort_is_sorted. now apply (ranked_on_perm l).
Qed.

End SortFacts.

(* ================================================================== *)
(** ** Facts about strings and paths                                    *)
(* ================================================================== *)

Section PathFacts.

Lemma rfind_app_free (c : ascii) (a n : string) :
  Str.rfind c n = None -> Str.rfind c (a ++ n)%string = Str.rfind c a.
Proof.
  intros Hn. induction a as [|d a IH]; simpl.
  - exact Hn.
  - now rewrite IH.
Qed.

Lemma substr_app (k : nat) (a n : string) :
  (k <= String.length a)%nat ->
  Str.substr k (a ++ n)%string = (Str.substr k a ++ n)%string.
Proof.
  revert a; induction k as [|k IH]; intros a Hk.
  - reflexivity.
  - destruct a as [|d a]; simpl in *.
    + lia.
    + apply IH. lia.
Qed.

Lemma substr_length (s : string) : Str.substr (String.length s) s = EmptyString.
Proof. induction s; simpl; auto. Qed.

Lemma rfind_ends_with_separator (a : string) :
  Path.ends_with_separator a = true ->
  Str.rfind_plus_1 Path.preferred_separator a = String.length a.
Proof.
  unfold Str.rfind_plus_1.
  induction a as [|d a IH]; simpl; intros H.
  - discriminate.
  - destruct a as [|e a'].
    + simpl. now rewrite H.
    + specialize (IH H).
      destruct (Str.rfind Path.preferred_separator (String e a')) as [j|].
      * now rewrite IH.
      * simpl in IH. discriminate.
Qed.

Lemma ends_with_separator_snoc (a : string) :
  Path.ends_with_separator
    (a ++ String Path.preferred_separator EmptyString)%string = true.
Proof.
  induction a as [|d a IH]; simpl.
  - reflexivity.
  - destruct (a ++ String Path.preferred_separator EmptyString)%string eqn:E.
    + destruct a; discriminate.
    + exact IH.
Qed.

Lemma append_assoc (a b c : string) :
  ((a ++ b) ++ c)%string = (a ++ (b ++ c))%string.
Proof. induction a; simpl; congruence. Qed.

Lemma filename_after_separator (a n : string) :
  Path.ends_with_separator a = true ->
  Str.rfind Path.preferred_separator n = None ->
  Path.filename (a ++ n)%string = n.
Proof.
  intros Ha Hn. unfold Path.filename, Str.rfind_plus_1.
  rewrite (rfind_app_free _ a n Hn).
  fold (Str.rfind_plus_1 Path.preferred_separator a).
  rewrite (rfind_ends_with_separator a Ha).
  rewrite substr_app by lia.
  now rewrite substr_length.
Qed.

(** The file name of a directory entry is the name [readdir] gave. *)
Lemma filename_slash (dir n : string) :
  Str.rfind Path.preferred_separator n = None ->
  Path.filename (Path.slash dir n) = n.
Proof.
  intros Hn. unfold Path.slash.
  destruct (Path.ends_with_separator dir) eqn:E; simpl.
  - now apply filename_after_separator.
  - destruct (String.eqb dir "") eqn:E0.
    + apply String.eqb_eq in E0. subst dir. simpl.
      unfold Path.filename, Str.rfind_plus_1. now rewrite Hn.
    + change (String Path.preferred_separator n)
        with (String Path.preferred_separator EmptyString ++ n)%string.
      rewrite <- append_assoc.
      apply filename_after_separator; [|assumption].
      apply ends_with_separator_snoc.
Qed.

Lemma stem_slash (dir n : string) :
  Str.rfind Path.preferred_separator n = None ->
  Path.stem (Path.slash dir n) = Path.stem n.
Proof.
  intros Hn. unfold Path.stem.
  rewrite (filename_slash dir n Hn).
  assert (Path.filename n = n) as ->; [|reflexivity].
  unfold Path.filename, Str.rfind_plus_1. now rewrite Hn.
Qed.

Lemma extension_slash (dir n : string) :
  Str.rfind Path.preferred_separator n = None ->
  Path.extension (Path.slash dir n) = Path.extension n.
Proof.
  intros Hn. unfold Path.extension.
  rewrite (filename_slash dir n Hn).
  assert (Path.filename n = n) as ->; [|reflexivity].
  unfold Path.filename, Str.rfind_plus_1. now rewrite Hn.
Qed.

End PathFacts.

(* ================================================================== *)
(** ** Facts about the C routines                                       *)
(* ================================================================== *)

Section CLibFacts.

Lemma strcmp_refl (s : string) : CLib.strcmp s s = 0.
Proof.
  induction s as [|c s IH]; simpl.
  - reflexivity.
  - rewrite Ascii.eqb_refl. now destruct (Ascii.eqb c zero).
Qed.

Lemma to_int_range (z : Z) : CLib.INT_MIN <= CLib.to_int z <= CLib.INT_MAX.
Proof.
  unfold CLib.to_int, CLib.INT_MIN, CLib.INT_MAX.
  pose proof (Z.mod_pos_bound (z + 2 ^ 31) (2 ^ 32) ltac:(lia)). lia.
Qed.

Lemma to_int_small (z : Z) :
  CLib.INT_MIN <= z <= CLib.INT_MAX -> CLib.to_int z = z.
Proof.
  unfold CLib.to_int, CLib.INT_MIN, CLib.INT_MAX. intros H.
  rewrite Z.mod_small by lia. lia.
Qed.

Lemma digits_value_lower (s : string) (acc : Z) :
  0 <= acc -> acc <= CLib.digits_value acc s.
Proof.
  revert acc; induction s as [|c s IH]; simpl; intros acc H.
  - lia.
  - destruct (CLib.isdigit c) eqn:E; [|lia].
    unfold CLib.isdigit in E. apply andb_prop in E as [E1 E2].
    apply Z.leb_le in E1. apply Z.leb_le in E2.
    specialize (IH (acc * 10 + (CLib.byte c - 48))). lia.
Qed.

Lemma magnitude_nonneg (s : string) : 0 <= magnitude s.
Proof. unfold magnitude. apply digits_value_lower. lia. Qed.

Lemma non_numeric_magnitude (s : string) :
  non_numeric s = true -> magnitude s = 0.
Proof.
  unfold non_numeric, magnitude.
  destruct (snd (CLib.sign_and_digits s)) as [|c r]; simpl.
  - reflexivity.
  - intros H. apply negb_true_iff in H. now rewrite H.
Qed.

(** Text without a minus sign is never read as negative. *)
Lemma sign_of_dash_free (s : string) :
  Str.rfind "-"%char s = None -> fst (CLib.sign_and_digits s) = false.
Proof.
  unfold CLib.sign_and_digits.
  induction s as [|c s IH]; simpl; intros H.
  - reflexivity.
  - destruct (Str.rfind "-"%char s) as [j|] eqn:Ej; [discriminate|].
    destruct (Ascii.eqb c "-"%char) eqn:Ec; [discriminate|].
    destruct (CLib.isspace c).
    + now apply IH.
    + destruct c as [[] [] [] [] [] [] [] []]; try reflexivity; discriminate.
Qed.

Lemma atoi_of_magnitude (s : string) :
  fst (CLib.sign_and_digits s) = false ->
  CLib.atoi s = CLib.to_int (Z.min (magnitude s) CLib.LONG_MAX).
Proof.
  unfold CLib.atoi, CLib.strtol, magnitude.
  destruct (CLib.sign_and_digits s) as [negative digits]; simpl.
  intros ->. f_equal.
  destruct (CLib.LONG_MAX <? CLib.digits_value 0 digits) eqn:E.
  - apply Z.ltb_lt in E. lia.
  - apply Z.ltb_ge in E. lia.
Qed.

Lemma atoi_non_numeric (s : string) :
  non_numeric s = true -> CLib.atoi s = 0.
Proof.
  intros H. pose proof (non_numeric_magnitude s H) as Hm.
  unfold CLib.atoi, CLib.strtol. unfold magnitude in Hm.
  destruct (CLib.sign_and_digits s) as [negative digits]; simpl in *.
  rewrite Hm. now destruct negative.
Qed.

End CLibFacts.

(* ================================================================== *)
(** ** Facts about [dex_comparator]                                     *)
(* ================================================================== *)

Section ComparatorFacts.

Lemma dex_comparator_cases (a b : Path.path) :
  dex_comparator a b =
  match dashed a, dashed b with
  | false, true => true
  | true, false => false
  | false, false => 1 <? CLib.strcmp (Path.stem a) (Path.stem b)
  | true, true => suffix_number a <? suffix_number b
  end.
Proof.
  unfold dex_comparator, dex_comparator_with, dashed, suffix_number, suffix.
  destruct (Str.is_found (Str.rfind "-"%char (Path.stem a)));
    destruct (Str.is_found (Str.rfind "-"%char (Path.stem b))); reflexivity.
Qed.

Lemma dex_comparator_irrefl (a : Path.path) : dex_comparator a a = false.
Proof.
  rewrite dex_comparator_cases. destruct (dashed a).
  - apply Z.ltb_irrefl.
  - now rewrite strcmp_refl.
Qed.

(** The text after the last dash holds no dash. *)
Lemma after_last_is_free (c : ascii) (s : string) :
  Str.rfind c (Str.substr (Str.rfind_plus_1 c s) s) = None.
Proof.
  unfold Str.rfind_plus_1.
  induction s as [|d s IH]; simpl.
  - reflexivity.
  - destruct (Str.rfind c s) as [j|] eqn:Ej.
    + exact IH.
    + destruct (Ascii.eqb d c) eqn:Ed; simpl.
      * exact Ej.
      * now rewrite Ej, Ed.
Qed.

Lemma suffix_dash_free (p : Path.path) : Str.rfind "-"%char (suffix p) = None.
Proof. apply after_last_is_free. Qed.

Lemma suffix_number_of_magnitude (p : Path.path) :
  suffix_number p = CLib.to_int (Z.min (magnitude (suffix p)) CLib.LONG_MAX).
Proof.
  unfold suffix_number. apply atoi_of_magnitude, sign_of_dash_free, suffix_dash_free.
Qed.

Lemma suffix_number_in_range (p : Path.path) :
  magnitude (suffix p) <= CLib.INT_MAX ->
  suffix_number p = magnitude (suffix p).
Proof.
  intros H. rewrite suffix_number_of_magnitude.
  pose proof (magnitude_nonneg (suffix p)) as Hn.
  unfold CLib.INT_MAX, CLib.LONG_MAX in *.
  rewrite Z.min_l by lia.
  apply to_int_small. unfold CLib.INT_MIN, CLib.INT_MAX. lia.
Qed.




Lemma ranks_ranked (l : list Path.path) :
  NoDup (map sort_rank l) -> ranked_on dex_comparator sort_rank l.
Proof.
  intros H a b Ha Hb. rewrite dex_comparator_cases.
  pose proof (rank_injective_on sort_rank l H a b Ha Hb) as Hi.
  unfold sort_rank in *.
  pose proof (to_int_range (CLib.strtol (suffix a))) as Ra.
  pose proof (to_int_range (CLib.strtol (suffix b))) as Rb.
  fold (CLib.atoi (suffix a)) in Ra. fold (CLib.atoi (suffix b)) in Rb.
  fold (suffix_number a) in Ra. fold (suffix_number b) in Rb.
  destruct (dashed a) eqn:Ea, (dashed b) eqn:Eb.
  - reflexivity.
  - symmetry. apply Z.ltb_ge. lia.
  - symmetry. apply Z.ltb_lt. lia.
  - rewrite (Hi eq_refl), strcmp_refl. symmetry. apply Z.ltb_irrefl.
Qed.


Lemma sort_rank_slash (dir n : string) :
  Str.rfind Path.preferred_separator n = None ->
  sort_rank (Path.slash dir n) = sort_rank n.
Proof.
  intros H. unfold sort_rank, dashed, suffix_number, suffix.
  now rewrite (stem_slash dir n H).
Qed.

End ComparatorFacts.

(* ================================================================== *)
(** ** Facts about runs                                                 *)
(* ================================================================== *)

Section MonadFacts.

Context {A B : Type}.

Lemma bind_inl (t : list event) (e : exn) (k : A -> M B) :
  bind (t, inl e) k = (t, inl e).
Proof. reflexivity. Qed.

Lemma bind_inr (t : list event) (a : A) (k : A -> M B) :
  bind (t, inr a) k = (t ++ fst (k a), snd (k a)).
Proof. simpl. now destruct (k a). Qed.

Lemma bind_inr_inv (m : M A) (k : A -> M B) (tr : list event) (b : B) :
  bind m k = (tr, inr b) ->
  exists t1 a t2, m = (t1, inr a) /\ k a = (t2, inr b) /\ tr = t1 ++ t2.
Proof.
  destruct m as [t1 [e|a]]; simpl.
  - discriminate.
  - destruct (k a) as [t2 r] eqn:E. intros H. injection H as <- ->.
    now exists t1, a, t2.
Qed.

End MonadFacts.

Section TraceFacts.

Lemma jars_attempted_app (t t' : list event) :
  jars_attempted (t ++ t') = jars_attempted t ++ jars_attempted t'.
Proof. apply flat_map_app. Qed.

Lemma dexes_attempted_app (t t' : list event) :
  dexes_attempted (t ++ t') = dexes_attempted t ++ dexes_attempted t'.
Proof. apply flat_map_app. Qed.

End TraceFacts.

Section RunFacts.

Context {DexClasses : Type}.
Variable w : World DexClasses.

Lemma load_body_eq (dex : string) (store : DexStore DexClasses) :
  (load_body w) dex store =
  match load_classes_from_dex w dex with
  | Some classes => (load_events [dex], inr (add_classes store classes))
  | None => (load_events [dex], inl (load_failure dex))
  end.
Proof.
  unfold load_body, call_load_classes_from_dex.
  destruct (load_classes_from_dex w dex); reflexivity.
Qed.

Lemma dexes_of_load_events (xs : list string) :
  dexes_attempted (load_events xs) = xs.
Proof. induction xs; simpl; congruence. Qed.

Lemma dexes_of_jar_events (xs : list string) :
  dexes_attempted (jar_events xs) = [].
Proof. induction xs; simpl; congruence. Qed.

Lemma jars_of_jar_events (xs : list string) :
  jars_attempted (jar_events xs) = xs.
Proof. induction xs; simpl; congruence. Qed.

Lemma first_failure {X} (ok : X -> bool) (xs : list X) :
  Forall (fun x => ok x = true) xs
  \/ exists pre bad post,
       xs = pre ++ bad :: post
       /\ Forall (fun x => ok x = true) pre /\ ok bad = false.
Proof.
  induction xs as [|x xs IH].
  - left. constructor.
  - destruct (ok x) eqn:E.
    + destruct IH as [IH|(pre & bad & post & -> & Hp & Hb)].
      * left. now constructor.
      * right. exists (x :: pre), bad, post. repeat split; auto.
    + right. exists [], x, xs. repeat split; auto.
Qed.

Lemma dex_ok_loads (xs : list string) :
  Forall (fun x => dex_ok w x = true) xs ->
  exists cs, Forall2 (loads_as w) xs cs.
Proof.
  induction 1 as [|x xs Hx _ (cs & IH)].
  - exists []. constructor.
  - unfold dex_ok in Hx.
    destruct (load_classes_from_dex w x) as [c|] eqn:E; [|discriminate].
    exists (c :: cs). now constructor.
Qed.

Lemma load_loop_ok (xs : list string) (cs : list DexClasses) :
  Forall2 (loads_as w) xs cs ->
  forall store,
    for_each (load_body w) xs store =
    (load_events xs,
     inr {| metadata := metadata store; dexen := dexen store ++ cs |}).
Proof.
  induction 1 as [|x c xs cs Hx _ IH]; intros store.
  - simpl. unfold ret. destruct store. simpl. now rewrite app_nil_r.
  - cbn [for_each]. rewrite load_body_eq, Hx, bind_inr, IH. simpl.
    unfold emplace_back. now rewrite <- app_assoc.
Qed.

Lemma load_loop_inr (xs : list string) :
  forall store tr store',
    for_each (load_body w) xs store = (tr, inr store') ->
    exists cs,
      Forall2 (loads_as w) xs cs
      /\ tr = load_events xs
      /\ store' = {| metadata := metadata store; dexen := dexen store ++ cs |}.
Proof.
  induction xs as [|x xs IH]; intros store tr store' H.
  - simpl in H. injection H as <- <-. exists []. repeat split.
    + constructor.
    + destruct store. simpl. now rewrite app_nil_r.
  - cbn [for_each] in H. rewrite load_body_eq in H.
    destruct (load_classes_from_dex w x) as [c|] eqn:E.
    + rewrite bind_inr in H.
      destruct (for_each (load_body w) xs (add_classes store c)) as [t2 r2] eqn:E2.
      simpl in H. injection H as <- ->.
      apply IH in E2 as (cs & Hcs & -> & ->).
      exists (c :: cs). repeat split.
      * now constructor.
      * simpl. unfold emplace_back. now rewrite <- app_assoc.
    + discriminate.
Qed.

Lemma load_loop_fail (pre : list string) (bad : string) (post : list string) :
  Forall (fun x => dex_ok w x = true) pre ->
  dex_ok w bad = false ->
  forall store,
    for_each (load_body w) (pre ++ bad :: post) store =
    (load_events (pre ++ [bad]), inl (load_failure bad)).
Proof.
  intros Hp Hb. induction Hp as [|x pre Hx _ IH]; intros store.
  - cbn [app for_each]. rewrite load_body_eq.
    unfold dex_ok in Hb.
    destruct (load_classes_from_dex w bad); [discriminate|]. reflexivity.
  - cbn [app for_each]. rewrite load_body_eq.
    unfold dex_ok in Hx.
    destruct (load_classes_from_dex w x); [|discriminate].
    now rewrite bind_inr, IH.
Qed.

(** The files a loading loop touches are a prefix of its list. *)
Lemma load_loop_prefix (xs : list string) (store : DexStore DexClasses) :
  exists rest,
    xs = dexes_attempted (fst (for_each (load_body w) xs store)) ++ rest.
Proof.
  destruct (first_failure (dex_ok w) xs)
    as [Hok|(pre & bad & post & -> & Hp & Hb)].
  - destruct (dex_ok_loads xs Hok) as (cs & Hcs).
    rewrite (load_loop_ok xs cs Hcs). simpl.
    exists []. now rewrite dexes_of_load_events, app_nil_r.
  - rewrite (load_loop_fail pre bad post Hp Hb). simpl.
    exists post. now rewrite dexes_of_load_events, <- app_assoc.
Qed.

Lemma load_root_dexen_eq (store : DexStore DexClasses) (dir : Path.path) :
  load_root_dexen w store dir = for_each (load_body w) (sorted_dexen w dir) store.
Proof. reflexivity. Qed.

Lemma load_store_dexen_eq (store : DexStore DexClasses) (m : DexMetadata) :
  load_store_dexen w store m = for_each (load_body w) (get_files m) store.
Proof. reflexivity. Qed.

(** *** The archive loop *)

Lemma jar_body_eq (jar : string) (u : unit) :
  (jar_body w) jar u =
  if load_jar_file w jar
  then (jar_events [jar], inr tt)
  else (jar_events [jar], inl (jar_error jar)).
Proof.
  unfold jar_body, call_load_jar_file.
  destruct (load_jar_file w jar); reflexivity.
Qed.

Lemma load_jars_eq (jars : string) :
  load_jars w jars = for_each (jar_body w) (split delim jars) tt.
Proof. reflexivity. Qed.

Lemma jar_loop_ok (xs : list string) (u : unit) :
  Forall (fun j => load_jar_file w j = true) xs ->
  for_each (jar_body w) xs u = (jar_events xs, inr tt).
Proof.
  intros H. revert u. induction H as [|x xs Hx _ IH]; intros u.
  - now destruct u.
  - cbn [for_each]. now rewrite jar_body_eq, Hx, bind_inr, IH.
Qed.

Lemma jar_loop_fail (pre : list string) (bad : string) (post : list string)
  (u : unit) :
  Forall (fun j => load_jar_file w j = true) pre ->
  load_jar_file w bad = false ->
  for_each (jar_body w) (pre ++ bad :: post) u =
  (jar_events (pre ++ [bad]), inl (jar_error bad)).
Proof.
  intros Hp Hb. revert u. induction Hp as [|x pre Hx _ IH]; intros u.
  - cbn [app for_each]. now rewrite jar_body_eq, Hb.
  - cbn [app for_each]. now rewrite jar_body_eq, Hx, bind_inr, IH.
Qed.

(** *** Module discovery *)

Lemma fold_emplace_filter {X Y} (p : X -> bool) (f : X -> Y) (l : list X) :
  forall acc,
    fold_left (fun acc x => if p x then emplace_back acc (f x) else acc) l acc
    = acc ++ map f (filter p l).
Proof.
  induction l as [|x l IH]; intros acc; simpl.
  - now rewrite app_nil_r.
  - rewrite IH. destruct (p x); simpl; [|reflexivity].
    unfold emplace_back. now rewrite <- app_assoc.
Qed.

Lemma list_modules_filter (dir : Path.path) :
  list_modules w dir =
  map Path.filename
    (filter
       (fun file =>
          is_directory (fs w) file
          && is_regular_file (fs w) (probed_metadata file)
          && exists_ (fs w) (probed_metadata file))
       (directory_iterator (fs w) dir)).
Proof.
  unfold list_modules.
  now rewrite (fold_emplace_filter _ Path.filename).
Qed.

Lemma discovered_dexen_filter (dir : Path.path) :
  discovered_dexen w dir =
  filter
    (fun file =>
       is_regular_file (fs w) file && String.eqb (Path.extension file) ".dex")
    (directory_iterator (fs w) dir).
Proof.
  unfold discovered_dexen.
  rewrite (fold_emplace_filter _ (fun x => x)). simpl. apply map_id.
Qed.

Lemma probed_metadata_slash (dir name : string) :
  Str.rfind Path.preferred_separator name = None ->
  probed_metadata (Path.slash dir name) =
  String.append (Path.slash dir name)
    (String.append "/" (String.append name ".json")).
Proof.
  intros H. unfold probed_metadata, Path.append_str, Path.append_char.
  rewrite (filename_slash dir name H). apply append_assoc.
Qed.

(** *** Module assembly *)

Lemma call_parse_eq (p : string) :
  call_parse w p =
  match parse w p with
  | Some m => ([ParseMetadata p], inr m)
  | None => ([ParseMetadata p], inl (parse_failure p))
  end.
Proof. unfold call_parse. destruct (parse w p); reflexivity. Qed.

Lemma load_module_inr (dir : Path.path) (module : string)
  (stores stores' : DexStoresVector DexClasses) (tr : list event) :
  load_module w dir module stores = (tr, inr stores') ->
  exists store,
    stores' = stores ++ [store]
    /\ module_store_of w dir module store
    /\ tr = module_events w dir [module].
Proof.
  unfold load_module. rewrite call_parse_eq.
  unfold module_store_of, module_events. simpl.
  destruct (parse w (metadata_path_of dir module)) as [m|] eqn:E;
    [|discriminate].
  rewrite bind_inr. intros H.
  destruct (load_store_dexen w (DexStore_of m) m) as [t2 [e|store]] eqn:E2;
    simpl in H; [discriminate|].
  injection H as <- <-.
  rewrite load_store_dexen_eq in E2.
  apply load_loop_inr in E2 as (cs & Hcs & -> & ->).
  eexists. split; [reflexivity|]. split.
  - exists m. simpl. auto.
  - simpl. now rewrite !app_nil_r.
Qed.

Lemma module_events_app (dir : Path.path) (ms ms' : list string) :
  module_events w dir (ms ++ ms') =
  module_events w dir ms ++ module_events w dir ms'.
Proof. apply flat_map_app. Qed.

Lemma module_loop_inr (dir : Path.path) (modules : list string) :
  forall stores stores' tr,
    for_each (load_module w dir) modules stores = (tr, inr stores') ->
    exists ms,
      stores' = stores ++ ms
      /\ Forall2 (module_store_of w dir) modules ms
      /\ tr = module_events w dir modules.
Proof.
  induction modules as [|m modules IH]; intros stores stores' tr H.
  - simpl in H. injection H as <- <-.
    exists []. rewrite app_nil_r. repeat split. constructor.
  - cbn [for_each] in H.
    apply bind_inr_inv in H as (t1 & s1 & t2 & H1 & H2 & ->).
    apply load_module_inr in H1 as (store & -> & Hs & ->).
    apply IH in H2 as (ms & -> & Hms & ->).
    exists (store :: ms). repeat split.
    + now rewrite <- app_assoc.
    + now constructor.
    + change (m :: modules) with ([m] ++ modules).
      now rewrite module_events_app.
Qed.

(** *** Invariants of runs *)

Lemma surfaces_quiet {A} (m : M A) :
  dexes_attempted (fst m) = [] -> surfaces w m.
Proof. intros H p Hp. rewrite H in Hp. contradiction. Qed.

Lemma surfaces_bind {A B} (m : M A) (k : A -> M B) :
  surfaces w m -> (forall a, surfaces w (k a)) -> surfaces w (bind m k).
Proof.
  intros Hm Hk. destruct m as [t [e|a]].
  - intros p Hp Hbad. specialize (Hm p Hp Hbad). simpl in *.
    injection Hm as ->. reflexivity.
  - rewrite bind_inr. intros p Hp Hbad. simpl in Hp.
    rewrite dexes_attempted_app in Hp. apply in_app_or in Hp as [Hp|Hp].
    + specialize (Hm p Hp Hbad). discriminate.
    + simpl. now apply Hk.
Qed.

Lemma surfaces_for_each {X S} (body : X -> S -> M S) (xs : list X) :
  (forall x s, surfaces w (body x s)) ->
  forall s, surfaces w (for_each body xs s).
Proof.
  intros Hb. induction xs as [|x xs IH]; intros s.
  - now apply surfaces_quiet.
  - cbn [for_each]. now apply surfaces_bind.
Qed.

Lemma surfaces_load_body (dex : string) (store : DexStore DexClasses) :
  surfaces w ((load_body w) dex store).
Proof.
  rewrite load_body_eq. intros p Hp Hbad.
  unfold dex_ok in Hbad.
  destruct (load_classes_from_dex w dex) eqn:E; simpl in *;
    destruct Hp as [<-|[]]; rewrite E in Hbad; [discriminate|reflexivity].
Qed.

Lemma surfaces_load_module (dir : Path.path) (module : string)
  (stores : DexStoresVector DexClasses) :
  surfaces w (load_module w dir module stores).
Proof.
  unfold load_module. apply surfaces_bind.
  - apply surfaces_quiet. rewrite call_parse_eq.
    now destruct (parse w (metadata_path_of dir module)).
  - intros m. apply surfaces_bind.
    + rewrite load_store_dexen_eq.
      apply surfaces_for_each, surfaces_load_body.
    + intros store. now apply surfaces_quiet.
Qed.

Lemma no_jar_bind {A B} (m : M A) (k : A -> M B) :
  registers_no_jar m -> (forall a, registers_no_jar (k a)) ->
  registers_no_jar (bind m k).
Proof.
  unfold registers_no_jar. intros Hm Hk. destruct m as [t [e|a]].
  - exact Hm.
  - rewrite bind_inr. simpl in *.
    now rewrite jars_attempted_app, Hm, Hk.
Qed.

Lemma no_jar_for_each {X S} (body : X -> S -> M S) (xs : list X) :
  (forall x s, registers_no_jar (body x s)) ->
  forall s, registers_no_jar (for_each body xs s).
Proof.
  intros Hb. induction xs as [|x xs IH]; intros s.
  - reflexivity.
  - cbn [for_each]. now apply no_jar_bind.
Qed.

Lemma no_jar_load_body (dex : string) (store : DexStore DexClasses) :
  registers_no_jar ((load_body w) dex store).
Proof.
  rewrite load_body_eq.
  now destruct (load_classes_from_dex w dex).
Qed.

Lemma no_jar_load_module (dir : Path.path) (module : string)
  (stores : DexStoresVector DexClasses) :
  registers_no_jar (load_module w dir module stores).
Proof.
  unfold load_module. apply no_jar_bind.
  - rewrite call_parse_eq.
    now destruct (parse w (metadata_path_of dir module)).
  - intros m. apply no_jar_bind.
    + rewrite load_store_dexen_eq.
      apply no_jar_for_each, no_jar_load_body.
    + now intros store.
Qed.

(** *** [Tool::init] *)

Lemma init_eq (jars apk dir : string) :
  is_directory (fs w) dir = true ->
  init w jars apk dir = (load_jars w jars ;;; (after_jars w) dir).
Proof. intros H. unfold init. now rewrite H. Qed.

Lemma init_not_directory (jars apk dir : string) :
  is_directory (fs w) dir = false ->
  init w jars apk dir =
  ([], inl (invalid_argument
              (String.append "'" (String.append dir "' is not a directory")))).
Proof. intros H. unfold init. now rewrite H. Qed.

Lemma after_jars_inr (dir : Path.path) (tr : list event)
  (stores : DexStoresVector DexClasses) :
  (after_jars w) dir = (tr, inr stores) ->
  exists root_cs ms,
    Forall2 (loads_as w) (sorted_dexen w dir) root_cs
    /\ Forall2 (module_store_of w dir) (list_modules w dir) ms
    /\ stores = {| metadata := primary_metadata;
                   dexen := root_cs |} :: ms
    /\ tr = load_events (sorted_dexen w dir)
            ++ module_events w dir (list_modules w dir)
            ++ [Stdout "Initializing reachable classes"; InitReachableClasses].
Proof.
  unfold after_jars. intros H.
  apply bind_inr_inv in H as (t1 & root_store & t2 & H1 & H2 & ->).
  rewrite load_root_dexen_eq in H1.
  apply load_loop_inr in H1 as (cs & Hcs & -> & ->).
  apply bind_inr_inv in H2 as (t3 & stores3 & t4 & H3 & H4 & ->).
  apply module_loop_inr in H3 as (ms & -> & Hms & ->).
  simpl in H4. injection H4 as <- <-.
  exists cs, ms. repeat split; assumption.
Qed.

Lemma after_jars_surfaces (dir : Path.path) : surfaces w ((after_jars w) dir).
Proof.
  unfold after_jars. apply surfaces_bind.
  - rewrite load_root_dexen_eq. apply surfaces_for_each, surfaces_load_body.
  - intros root_store. apply surfaces_bind.
    + apply surfaces_for_each. intros. apply surfaces_load_module.
    + intros stores. now apply surfaces_quiet.
Qed.

Lemma after_jars_no_jar (dir : Path.path) : registers_no_jar ((after_jars w) dir).
Proof.
  unfold after_jars. apply no_jar_bind.
  - rewrite load_root_dexen_eq. apply no_jar_for_each, no_jar_load_body.
  - intros root_store. apply no_jar_bind.
    + apply no_jar_for_each. intros. apply no_jar_load_module.
    + now intros stores.
Qed.

Lemma jar_loop_inr (xs : list string) (u u' : unit) (tr : list event) :
  for_each (jar_body w) xs u = (tr, inr u') ->
  Forall (fun j => load_jar_file w j = true) xs /\ tr = jar_events xs.
Proof.
  destruct (first_failure (load_jar_file w) xs)
    as [Hok|(pre & bad & post & -> & Hp & Hb)].
  - rewrite (jar_loop_ok xs u Hok). intros H. injection H as <-. now split.
  - rewrite (jar_loop_fail pre bad post u Hp Hb). discriminate.
Qed.

Lemma jar_loop_quiet (xs : list string) (u : unit) :
  dexes_attempted (fst (for_each (jar_body w) xs u)) = [].
Proof.
  destruct (first_failure (load_jar_file w) xs)
    as [Hok|(pre & bad & post & -> & Hp & Hb)].
  - rewrite (jar_loop_ok xs u Hok). apply dexes_of_jar_events.
  - rewrite (jar_loop_fail pre bad post u Hp Hb). apply dexes_of_jar_events.
Qed.

Lemma init_surfaces (jars apk dir : string) :
  surfaces w (init w jars apk dir).
Proof.
  destruct (is_directory (fs w) dir) eqn:E.
  - rewrite (init_eq jars apk dir E). apply surfaces_bind.
    + apply surfaces_quiet. rewrite load_jars_eq. apply jar_loop_quiet.
    + intros _. apply after_jars_surfaces.
  - rewrite (init_not_directory jars apk dir E). now apply surfaces_quiet.
Qed.

(** A run that returns its stores has registered every archive, loaded
    every container file and assembled every module, in this order. *)
Lemma init_inr (jars apk dir : string) (tr : list event)
  (stores : DexStoresVector DexClasses) :
  init w jars apk dir = (tr, inr stores) ->
  is_directory (fs w) dir = true
  /\ Forall (fun j => load_jar_file w j = true) (split delim jars)
  /\ exists root_cs ms,
       Forall2 (loads_as w) (sorted_dexen w dir) root_cs
       /\ Forall2 (module_store_of w dir) (list_modules w dir) ms
       /\ stores = {| metadata := primary_metadata;
                      dexen := root_cs |} :: ms
       /\ tr = jar_events (split delim jars)
               ++ load_events (sorted_dexen w dir)
               ++ module_events w dir (list_modules w dir)
               ++ [Stdout "Initializing reachable classes";
                   InitReachableClasses].
Proof.
  intros H.
  destruct (is_directory (fs w) dir) eqn:E.
  - rewrite (init_eq jars apk dir E) in H.
    apply bind_inr_inv in H as (t1 & u & t2 & H1 & H2 & ->).
    rewrite load_jars_eq in H1. apply jar_loop_inr in H1 as (Hj & ->).
    apply after_jars_inr in H2 as (cs & ms & Hcs & Hms & -> & ->).
    split; [reflexivity|]. split; [assumption|].
    exists cs, ms. repeat split; assumption.
  - rewrite (init_not_directory jars apk dir E) in H. discriminate.
Qed.

Lemma Forall2_In_l {X Y} (R : X -> Y -> Prop) (l : list X) (l' : list Y) (x : X) :
  Forall2 R l l' -> In x l -> exists y, In y l' /\ R x y.
Proof.
  induction 1 as [|a b l l' Hab _ IH]; simpl; intros Hx.
  - contradiction.
  - destruct Hx as [<-|Hx].
    + exists b. auto.
    + destruct (IH Hx) as (y & Hy & Hr). exists y. auto.
Qed.

Lemma is_directory_status (p : Path.path) :
  is_directory (fs w) p = true <-> status (fs w) p = Some directory_file.
Proof.
  unfold is_directory.
  destruct (status (fs w) p) as [[]|]; split; congruence.
Qed.

Lemma regular_and_exists_status (p : Path.path) :
  is_regular_file (fs w) p && exists_ (fs w) p = true
  <-> status (fs w) p = Some regular_file.
Proof.
  unfold is_regular_file, exists_.
  destruct (status (fs w) p) as [[]|]; simpl; split; congruence.
Qed.

(* ================================================================== *)
(** ** Module discovery and store assembly: the properties              *)
(* ================================================================== *)

(** C5. Module qualification.  With directory entries named as the
    operating system names them (no separator inside a name), a name is
    in the list [list_modules] returns for [dir] exactly when it is an
    entry of [dir] that is a directory and [dir/name/name.json] is a
    regular file.  A subdirectory without that file, or with a metadata
    file of another name, is not listed. *)
Theorem module_qualification (dir : Path.path) (name : string) :
  (forall n, In n (readdir (fs w) dir) ->
             Str.rfind Path.preferred_separator n = None) ->
  (In name (list_modules w dir)
   <-> In name (readdir (fs w) dir) /\ qualifies w dir name).
Proof.
  intros Hwf. rewrite list_modules_filter, in_map_iff. unfold qualifies.
  split.
  - intros (file & <- & Hf). apply filter_In in Hf as [Hin Hq].
    unfold directory_iterator in Hin.
    apply in_map_iff in Hin as (n & <- & Hn).
    rewrite (filename_slash dir n (Hwf n Hn)).
    rewrite (probed_metadata_slash dir n (Hwf n Hn)) in Hq.
    rewrite <- andb_assoc in Hq. apply andb_prop in Hq as [Hd Hr].
    split; [assumption|]. split.
    + now apply is_directory_status.
    + now apply regular_and_exists_status.
  - intros (Hn & Hd & Hr). exists (Path.slash dir name). split.
    + apply filename_slash, Hwf, Hn.
    + apply filter_In. split.
      * unfold directory_iterator. now apply in_map.
      * rewrite (probed_metadata_slash dir name (Hwf name Hn)).
        rewrite <- andb_assoc. apply andb_true_intro. split.
        -- now apply is_directory_status.
        -- now apply regular_and_exists_status.
Qed.

(** C6. Module load order fidelity.  [load_store_dexen] hands the files
    of the metadata to the loader in the declared order and never in
    another one: what was handed over is an initial segment of the
    declared list; when the store is returned it is the whole list, and
    the batches of the store are those files, in that order; and the
    store is returned as soon as every declared file loads.  The loop of
    [Tool::init] over the modules builds each module store that way from
    the metadata it parsed. *)
Theorem module_load_order (store : DexStore DexClasses) (m : DexMetadata)
  (dir : Path.path) (module : string) (stores : DexStoresVector DexClasses) :
  (exists rest,
      get_files m
      = dexes_attempted (fst (load_store_dexen w store m)) ++ rest)
  /\ (forall store',
        snd (load_store_dexen w store m) = inr store' ->
        dexes_attempted (fst (load_store_dexen w store m)) = get_files m
        /\ metadata store' = metadata store
        /\ exists cs, dexen store' = dexen store ++ cs
                      /\ Forall2 (loads_as w) (get_files m) cs)
  /\ (Forall (fun f => dex_ok w f = true) (get_files m) ->
      exists store', snd (load_store_dexen w store m) = inr store')
  /\ (forall stores',
        snd (load_module w dir module stores) = inr stores' ->
        exists m' store',
          parse w (metadata_path_of dir module) = Some m'
          /\ stores' = stores ++ [store']
          /\ metadata store' = m'
          /\ Forall2 (loads_as w) (get_files m') (dexen store')
          /\ dexes_attempted (fst (load_module w dir module stores))
             = get_files m').
Proof.
  rewrite load_store_dexen_eq. repeat split.
  - apply load_loop_prefix.
  - destruct (for_each (load_body w) (get_files m) store) as [tr r] eqn:E.
    simpl in *. subst r.
    apply load_loop_inr in E as (cs & Hcs & -> & ->).
    apply dexes_of_load_events.
  - destruct (for_each (load_body w) (get_files m) store) as [tr r] eqn:E.
    simpl in *. subst r.
    now apply load_loop_inr in E as (cs & Hcs & -> & ->).
  - destruct (for_each (load_body w) (get_files m) store) as [tr r] eqn:E.
    simpl in *. subst r.
    apply load_loop_inr in E as (cs & Hcs & -> & ->).
    exists cs. now split.
  - intros Hok. destruct (dex_ok_loads _ Hok) as (cs & Hcs).
    rewrite (load_loop_ok _ cs Hcs). simpl. eauto.
  - intros stores' H.
    destruct (load_module w dir module stores) as [tr r] eqn:E.
    simpl in *. subst r.
    apply load_module_inr in E as (store' & -> & (m' & Hp & Hm & Hl) & ->).
    exists m', store'. repeat split; try assumption.
    unfold module_events. simpl. rewrite Hp, app_nil_r.
    apply dexes_of_load_events.
Qed.

(** C8. Store collection shape.  The collection a run of [Tool::init]
    returns has one store more than [list_modules] found modules; its
    first store is the primary store, named "dex", holding the batches of
    the container files of the directory in the order they were loaded
    in, which for up to 16 files is the sorted order; the others are the
    stores of the modules, in the order [list_modules] found them. *)
Theorem store_collection_shape (jars apk dir : string) (tr : list event)
  (stores : DexStoresVector DexClasses) :
  init w jars apk dir = (tr, inr stores) ->
  List.length stores = S (List.length (list_modules w dir))
  /\ exists root_store module_stores,
       stores = root_store :: module_stores
       /\ nth_error stores 0 = Some root_store
       /\ get_name root_store = "dex"
       /\ (exists order,
             Permutation (discovered_dexen w dir) order
             /\ Forall2 (loads_as w) order (dexen root_store)
             /\ ((List.length (discovered_dexen w dir) <= S_threshold)%nat ->
                 order = sorted_dexen w dir))
       /\ Forall2 (module_store_of w dir) (list_modules w dir) module_stores.
Proof.
  intros H.
  apply init_inr in H as (_ & _ & cs & ms & Hcs & Hms & -> & _).
  split.
  - simpl. f_equal. symmetry. eapply Forall2_length, Hms.
  - eexists _, ms. repeat split; simpl; try assumption.
    exists (sorted_dexen w dir). repeat split; try assumption.
    apply std_sort_perm.
Qed.

(** C9. All or nothing.  A container file the loader rejects leaves the
    caller without a collection: if the run handed it to the loader, the
    run ends with the loader's exception for that very file; and if it is
    one of the container files of the directory, or is declared by the
    metadata of one of its modules, no run returns a collection. *)
Theorem all_or_nothing (jars apk dir : string) (p : string) :
  load_classes_from_dex w p = None ->
  (In p (dexes_attempted (fst (init w jars apk dir))) ->
   snd (init w jars apk dir) = inl (load_failure p))
  /\ (In p (sorted_dexen w dir)
      \/ (exists module m,
            In module (list_modules w dir)
            /\ parse w (metadata_path_of dir module) = Some m
            /\ In p (get_files m)) ->
      exists e, snd (init w jars apk dir) = inl e).
Proof.
  intros Hp. split.
  - intros Hin. apply init_surfaces; [assumption|].
    unfold dex_ok. now rewrite Hp.
  - intros Hcase.
    destruct (init w jars apk dir) as [tr [e|stores]] eqn:E; simpl.
    + now exists e.
    + exfalso.
      apply init_inr in E as (_ & _ & cs & ms & Hcs & Hms & _ & _).
      destruct Hcase as [Hroot|(module & m & Hmod & Hparse & Hfile)].
      * destruct (Forall2_In_l _ _ _ _ Hcs Hroot) as (c & _ & Hc).
        unfold loads_as in Hc. congruence.
      * destruct (Forall2_In_l _ _ _ _ Hms Hmod)
          as (store & _ & (m' & Hparse' & _ & Hl)).
        assert (m' = m) as -> by congruence.
        destruct (Forall2_In_l _ _ _ _ Hl Hfile) as (c & _ & Hc).
        unfold loads_as in Hc. congruence.
Qed.

Lemma fst_bind_prefix {A B} (m : M A) (k : A -> M B) :
  exists t, fst (bind m k) = fst m ++ t.
Proof.
  destruct m as [t1 [e|a]].
  - exists []. simpl. now rewrite app_nil_r.
  - rewrite bind_inr. simpl. eauto.
Qed.


Lemma split_delimiter (a : string) (c : ascii) (rest : string) :
  delimiter_free a = true -> delim c = true ->
  split delim (a ++ String c rest)%string = a :: split delim rest.
Proof.
  intros Ha Hc. induction a as [|d a IH]; simpl.
  - now rewrite Hc.
  - simpl in Ha. apply andb_prop in Ha as [Hd Ha].
    apply negb_true_iff in Hd. rewrite Hd, (IH Ha). reflexivity.
Qed.

Lemma split_delimiter_free (a : string) :
  delimiter_free a = true -> split delim a = [a].
Proof.
  induction a as [|d a IH]; simpl; intros Ha.
  - reflexivity.
  - apply andb_prop in Ha as [Hd Ha].
    apply negb_true_iff in Hd. now rewrite Hd, (IH Ha).
Qed.

(** C7. Classpath fail-fast.  In a run over a dexen directory, the
    archive list is split at commas and colons and registered from left
    to right.  When an archive fails after the ones before it were
    registered, the run throws the runtime error that names it, the
    archives handed to the loader are those up to and including it, and
    no container file was handed to the loader.  In every run the trace
    is an archive phase, which holds no container load and covers an
    initial segment of the list, followed by a phase that registers no
    archive, and which is empty unless every archive was registered. *)
Theorem classpath_fail_fast (jars apk dir : string) :
  is_directory (fs w) dir = true ->
  (forall pre bad post,
      split delim jars = pre ++ bad :: post ->
      Forall (fun j => load_jar_file w j = true) pre ->
      load_jar_file w bad = false ->
      snd (init w jars apk dir) = inl (jar_error bad)
      /\ jars_attempted (fst (init w jars apk dir)) = pre ++ [bad]
      /\ dexes_attempted (fst (init w jars apk dir)) = [])
  /\ (exists t1 t2,
        fst (init w jars apk dir) = t1 ++ t2
        /\ dexes_attempted t1 = []
        /\ jars_attempted t2 = []
        /\ (exists rest, split delim jars = jars_attempted t1 ++ rest)
        /\ (t2 <> [] ->
            jars_attempted t1 = split delim jars
            /\ Forall (fun j => load_jar_file w j = true) (split delim jars))).
Proof.
  intros Hdir. rewrite (init_eq jars apk dir Hdir), load_jars_eq. split.
  - intros pre bad post Hs Hp Hb.
    rewrite Hs, (jar_loop_fail pre bad post tt Hp Hb), bind_inl. simpl.
    now rewrite jars_of_jar_events, dexes_of_jar_events.
  - destruct (first_failure (load_jar_file w) (split delim jars))
      as [Hok|(pre & bad & post & Hs & Hp & Hb)].
    + rewrite (jar_loop_ok _ tt Hok), bind_inr. simpl.
      exists (jar_events (split delim jars)), (fst ((after_jars w) dir)).
      rewrite dexes_of_jar_events, jars_of_jar_events.
      repeat split; try assumption.
      * apply after_jars_no_jar.
      * exists []. now rewrite app_nil_r.
    + rewrite Hs, (jar_loop_fail pre bad post tt Hp Hb), bind_inl. simpl.
      exists (jar_events (pre ++ [bad])), [].
      rewrite dexes_of_jar_events, jars_of_jar_events, app_nil_r.
      repeat split; try congruence.
      exists post. now rewrite <- app_assoc.
Qed.


(** C1. The example of the ordering policy.  Whatever order the
    directory iterator lists them in, when the container files found in
    [dir] are secondary-2.dex, classes.dex, secondary-10.dex and
    secondary-1.dex, the sort of [load_root_dexen] puts them in the order
    classes.dex, secondary-1.dex, secondary-2.dex, secondary-10.dex; this
    is the only rearrangement that meets the postcondition of
    [std::sort]; and the files handed to the loader are an initial
    segment of that order. *)
Theorem example_load_order (dir : Path.path) (store : DexStore DexClasses) :
  Permutation (map (Path.slash dir) example_names) (discovered_dexen w dir) ->
  sorted_dexen w dir = map (Path.slash dir) example_order
  /\ (forall out,
        sort_post dex_comparator (discovered_dexen w dir) out ->
        out = map (Path.slash dir) example_order)
  /\ exists rest,
       map (Path.slash dir) example_order
       = dexes_attempted (fst (load_root_dexen w store dir)) ++ rest.
Proof.
  intros Hperm.
  assert (Hranks : forall l, incl l example_names ->
            map sort_rank (map (Path.slash dir) l) = map sort_rank l).
  { intros l Hl. rewrite map_map. apply map_ext_in. intros n Hn.
    apply sort_rank_slash. specialize (Hl n Hn).
    repeat (destruct Hl as [<-|Hl]; [reflexivity|]). contradiction. }
  assert (Hnodup : NoDup (map sort_rank (map (Path.slash dir) example_names))).
  { rewrite Hranks by apply incl_refl.
    vm_compute. repeat constructor; simpl; intuition discriminate. }
  assert (Hsorted : sorted_dexen w dir = map (Path.slash dir) example_order).
  { unfold sorted_dexen.
    rewrite (std_sort_perm_invariant dex_comparator sort_rank _ _
               (ranks_ranked _ Hnodup) Hnodup Hperm).
    symmetry.
    assert (Hp : Permutation (map (Path.slash dir) example_names)
                   (map (Path.slash dir) example_order)).
    { apply Permutation_map. unfold example_names, example_order.
      eapply perm_trans; [apply perm_swap|]. apply perm_skip.
      eapply perm_trans; [apply perm_skip, perm_swap|].
      eapply perm_trans; [apply perm_swap|]. apply perm_skip.
      apply Permutation_refl. }
    apply (sort_post_unique dex_comparator sort_rank);
      [now apply ranks_ranked | assumption |].
    split; [assumption|].
    apply (ascending_is_sorted dex_comparator sort_rank).
    - apply (ranked_on_perm _ _ _ _ Hp). now apply ranks_ranked.
    - assert (Hasc : StronglySorted Z.le
                       (map sort_rank (map (Path.slash dir) example_order))).
      { rewrite Hranks.
        - vm_compute. repeat constructor; discriminate.
        - intros n Hn. simpl in Hn |- *. intuition. }
      unfold ascending. revert Hasc.
      generalize (map (Path.slash dir) example_order).
      induction l as [|x l IH]; simpl; intros H.
      + constructor.
      + inversion H as [|? ? Hs Hf]; subst. constructor.
        * now apply IH.
        * rewrite Forall_forall in Hf |- *. intros y Hy.
          apply Hf. now apply in_map. }
  split; [assumption|]. split.
  - intros out Hout. rewrite <- Hsorted. unfold sorted_dexen.
    apply (sort_post_unique dex_comparator sort_rank); [| |assumption].
    + apply (ranked_on_perm _ _ _ _ Hperm). now apply ranks_ranked.
    + eapply Permutation_NoDup; [apply Permutation_map, Hperm|assumption].
  - rewrite load_root_dexen_eq, Hsorted. apply load_loop_prefix.
Qed.

End RunFacts.

(* ================================================================== *)
(** ** The ordering policy: the properties                              *)
(* ================================================================== *)

Section Ordering.


(** With a [strcmp] that returns only a sign, no name without a dash
    sorts before another one. *)
Lemma undashed_never_ordered_by_sign (a b : Path.path) :
  dashed a = false -> dashed b = false ->
  dex_comparator_with CLib.strcmp_sign a b = false.
Proof.
  unfold dashed, dex_comparator_with. intros -> ->. simpl.
  apply Z.ltb_ge. unfold CLib.strcmp_sign.
  pose proof (Z.sgn_spec (CLib.strcmp (Path.stem a) (Path.stem b))). lia.
Qed.

(** On names with a dash the comparator is a strict weak order. *)
Lemma dashed_strict_weak_order (a b c : Path.path) :
  dashed a = true -> dashed b = true -> dashed c = true ->
  (dex_comparator a b = true -> dex_comparator b c = true ->
   dex_comparator a c = true)
  /\ (dex_comparator a b = false -> dex_comparator b a = false ->
      dex_comparator b c = false -> dex_comparator c b = false ->
      dex_comparator a c = false /\ dex_comparator c a = false).
Proof.
  intros Ha Hb Hc. rewrite !dex_comparator_cases, Ha, Hb, Hc.
  rewrite !Z.ltb_lt, !Z.ltb_ge. lia.
Qed.


(** C4, as the code has it.  For two names with a dash the comparator
    reads the text after the last dash with [atoi] and orders by the
    [int] it returns, ascending.  That text holds no minus sign; the
    number is the decimal value written at its start, saturated at
    [LONG_MAX] and cut to 32 bits, hence that value itself, and not
    negative, when the value is at most [INT_MAX].  A suffix that does
    not start with a number reads as 0: such names tie with each other
    and with every name whose number is equal, and sort before every
    name whose number is positive. *)
Theorem dashed_names_order (a b : Path.path) :
  dashed a = true -> dashed b = true ->
  dex_comparator a b = (suffix_number a <? suffix_number b)
  /\ suffix_number a
     = CLib.to_int (Z.min (magnitude (suffix a)) CLib.LONG_MAX)
  /\ (magnitude (suffix a) <= CLib.INT_MAX ->
      suffix_number a = magnitude (suffix a) /\ 0 <= suffix_number a)
  /\ (non_numeric (suffix a) = true -> suffix_number a = 0)
  /\ (suffix_number a = suffix_number b ->
      dex_comparator a b = false /\ dex_comparator b a = false)
  /\ (non_numeric (suffix a) = true -> non_numeric (suffix b) = true ->
      dex_comparator a b = false /\ dex_comparator b a = false)
  /\ (non_numeric (suffix a) = true -> 0 < suffix_number b ->
      dex_comparator a b = true /\ dex_comparator b a = false).
Proof.
  intros Ha Hb. rewrite !dex_comparator_cases, Ha, Hb.
  split; [reflexivity|].
  split; [apply suffix_number_of_magnitude|].
  split.
  { intros H. rewrite (suffix_number_in_range a H).
    split; [reflexivity | apply magnitude_nonneg]. }
  split; [apply atoi_non_numeric|].
  split.
  { intros ->. now rewrite Z.ltb_irrefl. }
  split.
  - intros Na Nb. unfold suffix_number.
    now rewrite (atoi_non_numeric _ Na), (atoi_non_numeric _ Nb).
  - intros Na Hpos. unfold suffix_number in *.
    rewrite (atoi_non_numeric _ Na). split.
    + now apply Z.ltb_lt.
    + apply Z.ltb_ge. lia.
Qed.

(** C3, at the names classes2.dex and classes3.dex: the two base names
    differ and hold no dash, and neither sorts before the other, whether
    [strcmp] returns the difference of the bytes or only its sign;
    classes2.dex sorts before classes.dex. *)
Theorem undashed_names_tie :
  dashed "classes2.dex" = false
  /\ dashed "classes3.dex" = false
  /\ Path.stem "classes2.dex" <> Path.stem "classes3.dex"
  /\ CLib.strcmp (Path.stem "classes3.dex") (Path.stem "classes2.dex") = 1
  /\ dex_comparator "classes2.dex" "classes3.dex" = false
  /\ dex_comparator "classes3.dex" "classes2.dex" = false
  /\ dex_comparator_with CLib.strcmp_sign "classes2.dex" "classes3.dex" = false
  /\ dex_comparator_with CLib.strcmp_sign "classes3.dex" "classes2.dex" = false
  /\ dex_comparator "classes2.dex" "classes.dex" = true
  /\ dex_comparator "classes.dex" "classes2.dex" = false.
Proof. repeat split; try reflexivity. discriminate. Qed.

End Ordering.

(* ================================================================== *)
(** ** The properties at work on the sample worlds                      *)
(* ================================================================== *)

Section Instances.

Example path_operations :
  Path.stem "/tmp/dexen/classes.dex" = "classes"
  /\ Path.stem "secondary-10.dex" = "secondary-10"
  /\ Path.extension "/d/secondary-10.dex" = ".dex"
  /\ Path.filename "/tmp/redex_dexen/modA" = "modA"
  /\ Path.slash "/tmp/redex_dexen" "modA" = "/tmp/redex_dexen/modA"
  /\ Path.slash "/tmp/redex_dexen/" "modA" = "/tmp/redex_dexen/modA".
Proof. repeat split; reflexivity. Qed.

Example atoi_values :
  CLib.atoi "10" = 10
  /\ CLib.atoi "foo" = 0
  /\ CLib.atoi "" = 0
  /\ CLib.atoi " +12abc" = 12
  /\ CLib.atoi "-7" = -7
  /\ CLib.atoi "2147483647" = 2147483647
  /\ CLib.atoi "4294967295" = -1.
Proof. repeat split; reflexivity. Qed.

Example comparator_values :
  dex_comparator "classes.dex" "secondary-1.dex" = true
  /\ dex_comparator "secondary-1.dex" "classes.dex" = false
  /\ dex_comparator "secondary-2.dex" "secondary-10.dex" = true
  /\ dex_comparator "secondary-10.dex" "secondary-2.dex" = false.
Proof. repeat split; reflexivity. Qed.

(** The example of C1 on the sample disk, whose directory lists the four
    container files among modules and other files. *)
Lemma example_load_order_witness :
  Permutation (map (Path.slash Sample.root) example_names)
    (discovered_dexen (Sample.world []) Sample.root)
  /\ sorted_dexen (Sample.world []) Sample.root
     = map (Path.slash Sample.root) example_order.
Proof.
  assert (H : Permutation (map (Path.slash Sample.root) example_names)
                (discovered_dexen (Sample.world []) Sample.root)).
  { vm_compute. apply Permutation_refl. }
  split; [exact H|].
  exact (proj1 (example_load_order (Sample.world []) Sample.root
                  (DexStore_named "dex") H)).
Defined.




(** Among names without a dash the comparator is not even a strict weak
    order: a.dex ties with b.dex and b.dex with c.dex, yet c.dex sorts
    before a.dex. *)
Lemma undashed_ties_not_transitive :
  dex_comparator "a.dex" "b.dex" = false
  /\ dex_comparator "b.dex" "a.dex" = false
  /\ dex_comparator "b.dex" "c.dex" = false
  /\ dex_comparator "c.dex" "b.dex" = false
  /\ dex_comparator "c.dex" "a.dex" = true.
Proof. repeat split; reflexivity. Qed.

Lemma dashed_names_order_witness :
  dashed "secondary-foo.dex" = true
  /\ dashed "secondary-0.dex" = true
  /\ dex_comparator "secondary-foo.dex" "secondary-0.dex" = false
  /\ dex_comparator "secondary-0.dex" "secondary-foo.dex" = false.
Proof.
  split; [reflexivity|]. split; [reflexivity|].
  pose proof (dashed_names_order "secondary-foo.dex" "secondary-0.dex"
                eq_refl eq_refl) as (_ & _ & _ & _ & H & _).
  exact (H eq_refl).
Defined.

(** The counterexample to C4: a suffix beyond [INT_MAX] reads as a
    negative number, and the name sorts before one whose suffix is not a
    number. *)
Lemma large_suffix_wraps :
  dashed "secondary-2147483648.dex" = true
  /\ suffix "secondary-2147483648.dex" = "2147483648"
  /\ magnitude (suffix "secondary-2147483648.dex") = 2147483648
  /\ suffix_number "secondary-2147483648.dex" = -2147483648
  /\ non_numeric (suffix "secondary-foo.dex") = true
  /\ dex_comparator "secondary-2147483648.dex" "secondary-foo.dex" = true
  /\ dex_comparator "secondary-foo.dex" "secondary-2147483648.dex" = false
  /\ ~ (forall a, dashed a = true -> 0 <= suffix_number a).
Proof.
  repeat (split; [reflexivity|]).
  intros H. specialize (H "secondary-2147483648.dex" eq_refl).
  vm_compute in H. now apply H.
Qed.

Lemma sample_entries_well_named :
  forall n, In n (readdir (fs (Sample.world [])) Sample.root) ->
            Str.rfind Path.preferred_separator n = None.
Proof.
  intros n Hn. simpl in Hn.
  repeat (destruct Hn as [<-|Hn]; [reflexivity|]). contradiction.
Qed.

Lemma module_qualification_witness :
  (forall n, In n (readdir (fs (Sample.world [])) Sample.root) ->
             Str.rfind Path.preferred_separator n = None)
  /\ (In "modA" (list_modules (Sample.world []) Sample.root)
      <-> In "modA" (readdir (fs (Sample.world [])) Sample.root)
          /\ qualifies (Sample.world []) Sample.root "modA").
Proof.
  split; [exact sample_entries_well_named|].
  exact (module_qualification (Sample.world []) Sample.root "modA"
           sample_entries_well_named).
Defined.

(** The three directories of the sample disk: only [modA] is a module. *)
Example sample_modules :
  list_modules (Sample.world []) Sample.root = ["modA"]
  /\ ~ qualifies (Sample.world []) Sample.root "modB"
  /\ ~ qualifies (Sample.world []) Sample.root "modC".
Proof.
  split; [reflexivity|].
  split; intros [_ H]; vm_compute in H; discriminate.
Qed.

(** Metadata that declares [b.dex; a.dex] loads b.dex, then a.dex. *)
Example declared_order_is_kept :
  load_store_dexen (Sample.world []) (DexStore_of Sample.modA_metadata)
    Sample.modA_metadata
  = (load_events ["b.dex"; "a.dex"],
     inr {| metadata := Sample.modA_metadata; dexen := ["b.dex"; "a.dex"] |}).
Proof. reflexivity. Qed.

Lemma classpath_fail_fast_witness :
  is_directory (fs (Sample.world [])) Sample.root = true
  /\ snd (init (Sample.world []) "a.jar,b.jar:c.jar" "/apk" Sample.root)
     = inl (jar_error "b.jar")
  /\ jars_attempted
       (fst (init (Sample.world []) "a.jar,b.jar:c.jar" "/apk" Sample.root))
     = ["a.jar"; "b.jar"]
  /\ dexes_attempted
       (fst (init (Sample.world []) "a.jar,b.jar:c.jar" "/apk" Sample.root))
     = [].
Proof.
  split; [reflexivity|].
  refine (proj1 (classpath_fail_fast (Sample.world []) "a.jar,b.jar:c.jar"
                   "/apk" Sample.root eq_refl)
            ["a.jar"] "b.jar" ["c.jar"] eq_refl _ eq_refl).
  repeat constructor.
Defined.

Lemma store_collection_shape_witness :
  init (Sample.world []) Sample.good_jars "/apk" Sample.root
  = (Sample.good_trace, inr Sample.good_stores)
  /\ List.length Sample.good_stores
     = S (List.length (list_modules (Sample.world []) Sample.root)).
Proof.
  assert (H : init (Sample.world []) Sample.good_jars "/apk" Sample.root
              = (Sample.good_trace, inr Sample.good_stores)).
  { reflexivity. }
  split; [exact H|].
  exact (proj1 (store_collection_shape (Sample.world []) Sample.good_jars
                  "/apk" Sample.root Sample.good_trace Sample.good_stores H)).
Defined.

Lemma all_or_nothing_witness :
  load_classes_from_dex (Sample.world ["a.dex"]) "a.dex" = None
  /\ snd (init (Sample.world ["a.dex"]) Sample.good_jars "/apk" Sample.root)
     = inl (load_failure "a.dex").
Proof.
  split; [reflexivity|].
  refine (proj1 (all_or_nothing (Sample.world ["a.dex"]) Sample.good_jars
                   "/apk" Sample.root "a.dex" eq_refl) _).
  vm_compute. tauto.
Defined.

(** Leading, adjacent and trailing delimiters each leave an empty token,
    and the empty token is handed to the archive loader. *)
Example empty_tokens_on_sample :
  split delim ",a.jar::b.jar," = [""; "a.jar"; ""; "b.jar"; ""]
  /\ split delim "a.jar,,b.jar" = ["a.jar"; ""; "b.jar"]
  /\ init (Sample.world []) "a.jar,,c.jar" "/apk" Sample.root
     = (jar_events ["a.jar"; ""], inl (jar_error "")).
Proof. repeat split; reflexivity. Qed.

End Instances.

(* ================================================================== *)
(** ** The ordering policy on arbitrary names                           *)
(* ================================================================== *)

Section SortByRank.

Context {A : Type}.
Variable comp : A -> A -> bool.
Variable rank : A -> Z.
Hypothesis comp_follows : follows_rank comp rank.

Lemma unguarded_linear_insert_follows (val : A) (rp : list A) :
  descending rank rp -> descending rank (unguarded_linear_insert comp val rp).
Proof.
  induction rp as [|next rest IH]; simpl; intros Hd.
  - repeat constructor.
  - inversion Hd as [|? ? Hs Hf]; subst.
    pose proof (comp_follows val next) as Hc.
    destruct (comp val next).
    + constructor; [now apply IH|].
      eapply Permutation_Forall; [apply unguarded_linear_insert_perm|].
      now constructor.
    + constructor; [assumption|].
      constructor; [assumption|].
      eapply Forall_impl; [|exact Hf]. simpl. intros; lia.
Qed.

Lemma insertion_step_follows (rp : list A) (val : A) :
  descending rank rp -> descending rank (insertion_step comp rp val).
Proof.
  intros Hd. unfold insertion_step.
  destruct (rev rp) as [|first t] eqn:E.
  - repeat constructor.
  - assert (Erp : rp = rev t ++ [first]).
    { rewrite <- (rev_involutive rp), E. reflexivity. }
    pose proof (comp_follows val first) as Hc.
    destruct (comp val first).
    + apply descending_snoc; [assumption|].
      rewrite Erp in Hd |- *.
      apply Forall_app. split.
      * eapply Forall_impl; [|apply (descending_snoc_inv _ _ _ Hd)].
        simpl. intros; lia.
      * now repeat constructor.
    + now apply unguarded_linear_insert_follows.
Qed.

Lemma std_sort_follows (l : list A) : ascending rank (std_sort comp l).
Proof.
  unfold std_sort. apply descending_rev.
  assert (H : forall acc, descending rank acc ->
                descending rank (fold_left (insertion_step comp) l acc)).
  { induction l as [|x l' IH]; intros acc Hacc; simpl.
    - assumption.
    - now apply IH, insertion_step_follows. }
  apply H. constructor.
Qed.

(** Where an insertion step puts the new element: somewhere in the
    sorted part, which it leaves in its order. *)
Lemma unguarded_linear_insert_split (val : A) (rp : list A) :
  exists rp1 rp2,
    rp = rp1 ++ rp2
    /\ unguarded_linear_insert comp val rp = rp1 ++ val :: rp2
    /\ Forall (fun x => comp val x = true) rp1.
Proof.
  induction rp as [|next rest (rp1 & rp2 & E & Hu & Hf)]; simpl.
  - exists [], []. repeat split. constructor.
  - destruct (comp val next) eqn:Ec.
    + exists (next :: rp1), rp2. rewrite Hu, E. repeat split.
      now constructor.
    + exists [], (next :: rest). repeat split. constructor.
Qed.

End SortByRank.

Section OrderingAtLarge.

Lemma strcmp_above_one_trans (a : string) :
  forall b c,
    1 < CLib.strcmp a b -> 1 < CLib.strcmp b c -> 1 < CLib.strcmp a c.
Proof.
  assert (Hb : forall ch, 0 <= CLib.byte ch) by (intros; unfold CLib.byte; lia).
  induction a as [|x a IH]; intros b c Hab Hbc.
  - destruct b as [|y b]; simpl in Hab; [lia|]. specialize (Hb y). lia.
  - destruct b as [|y b].
    + destruct c as [|z c]; simpl in Hbc; [lia|]. specialize (Hb z). lia.
    + destruct c as [|z c]; simpl in Hab, Hbc |- *.
      * destruct (Ascii.eqb x y) eqn:Exy.
        -- apply Ascii.eqb_eq in Exy. now subst y.
        -- lia.
      * destruct (Ascii.eqb x y) eqn:Exy.
        -- apply Ascii.eqb_eq in Exy. subst y.
           destruct (Ascii.eqb x z) eqn:Exz; [|exact Hbc].
           destruct (Ascii.eqb x zero); [lia|].
           eapply IH; eassumption.
        -- destruct (Ascii.eqb y z) eqn:Eyz.
           ++ apply Ascii.eqb_eq in Eyz. subst z. rewrite Exy. exact Hab.
           ++ destruct (Ascii.eqb x z) eqn:Exz.
              ** apply Ascii.eqb_eq in Exz. subst z. lia.
              ** lia.
Qed.

Lemma strcmp_antisym (a : string) :
  forall b, CLib.strcmp b a = - CLib.strcmp a b.
Proof.
  induction a as [|x a IH]; intros [|y b]; simpl; try lia.
  rewrite (Ascii.eqb_sym y x).
  destruct (Ascii.eqb x y) eqn:E.
  - apply Ascii.eqb_eq in E. subst y.
    destruct (Ascii.eqb x zero); [reflexivity | apply IH].
  - lia.
Qed.

Lemma suffix_number_range (p : Path.path) :
  CLib.INT_MIN <= suffix_number p <= CLib.INT_MAX.
Proof. apply to_int_range. Qed.

Lemma dex_follows_rank : follows_rank dex_comparator sort_rank.
Proof.
  intros x y. rewrite dex_comparator_cases. unfold sort_rank.
  pose proof (suffix_number_range x). pose proof (suffix_number_range y).
  destruct (dashed x), (dashed y).
  - destruct (Z.ltb_spec (suffix_number x) (suffix_number y)); lia.
  - lia.
  - lia.
  - destruct (1 <? CLib.strcmp (Path.stem x) (Path.stem y)); lia.
Qed.

Lemma ascending_dashed (l : list Path.path) :
  Forall (fun p => dashed p = true) l ->
  ascending sort_rank l -> ascending suffix_number l.
Proof.
  unfold ascending. induction l as [|x l IH]; intros Hd Ha.
  - constructor.
  - inversion Hd as [|? ? Hx Hl]; subst.
    inversion Ha as [|? ? Hs Hf]; subst.
    constructor; [now apply IH|].
    rewrite Forall_forall in Hf, Hl |- *. intros y Hy.
    specialize (Hf y Hy). specialize (Hl y Hy).
    unfold sort_rank in Hf. now rewrite Hx, Hl in Hf.
Qed.

Lemma ascending_partition (s : list Path.path) :
  ascending sort_rank s ->
  exists U D,
    s = U ++ D
    /\ Forall (fun p => dashed p = false) U
    /\ Forall (fun p => dashed p = true) D
    /\ ascending suffix_number D.
Proof.
  induction s as [|x t IH]; intros Ha.
  - exists [], []. repeat split; constructor.
  - pose proof Ha as Ha'.
    inversion Ha as [|? ? Hs Hf]; subst.
    destruct (dashed x) eqn:Ex.
    + assert (Hd : Forall (fun p => dashed p = true) (x :: t)).
      { constructor; [assumption|].
        rewrite Forall_forall in Hf |- *. intros y Hy.
        specialize (Hf y Hy). unfold sort_rank in Hf. rewrite Ex in Hf.
        pose proof (suffix_number_range x).
        destruct (dashed y); [reflexivity|lia]. }
      exists [], (x :: t). repeat split; try assumption; [constructor|].
      now apply ascending_dashed.
    + destruct (IH Hs) as (U & D & -> & HU & HD & HaD).
      exists (x :: U), D. repeat split; try assumption.
      now constructor.
Qed.

(** X1. Whatever the names, the comparator is a strict partial order:
    no name sorts before itself, no two names sort before each other,
    and "sorts before" is transitive. *)
Theorem comparator_strict_order :
  (forall a, dex_comparator a a = false)
  /\ (forall a b, dex_comparator a b = true -> dex_comparator b a = false)
  /\ (forall a b c,
        dex_comparator a b = true -> dex_comparator b c = true ->
        dex_comparator a c = true).
Proof.
  split; [apply dex_comparator_irrefl|]. split.
  - intros a b. rewrite !dex_comparator_cases.
    destruct (dashed a), (dashed b); try congruence.
    + rewrite Z.ltb_lt, Z.ltb_ge. lia.
    + rewrite (strcmp_antisym (Path.stem a) (Path.stem b)).
      rewrite Z.ltb_lt, Z.ltb_ge. lia.
  - intros a b c. rewrite !dex_comparator_cases.
    destruct (dashed a), (dashed b), (dashed c); try congruence.
    + rewrite !Z.ltb_lt. lia.
    + rewrite !Z.ltb_lt. apply strcmp_above_one_trans.
Qed.

(** X2. The comparator looks at the file name only: two container files
    compare the same in whatever directories they lie. *)
Theorem comparator_ignores_directory (dir dir' : Path.path) (a b : string) :
  Str.rfind Path.preferred_separator a = None ->
  Str.rfind Path.preferred_separator b = None ->
  dex_comparator (Path.slash dir a) (Path.slash dir' b) = dex_comparator a b.
Proof.
  intros Ha Hb. unfold dex_comparator, dex_comparator_with.
  now rewrite (stem_slash dir a Ha), (stem_slash dir' b Hb).
Qed.

(** X3. The load sequence of up to 16 container files, whatever their
    names: sorting rearranges the files without losing or repeating
    one, puts every name without a dash before every name with a dash,
    and puts the names with a dash in ascending order of their
    numbers. *)
Theorem sort_puts_undashed_first (l : list Path.path) :
  (List.length l <= S_threshold)%nat ->
  exists U D,
    std_sort dex_comparator l = U ++ D
    /\ Permutation l (U ++ D)
    /\ Forall (fun p => dashed p = false) U
    /\ Forall (fun p => dashed p = true) D
    /\ ascending suffix_number D.
Proof.
  intros _.
  destruct (ascending_partition _
              (std_sort_follows dex_comparator sort_rank dex_follows_rank l))
    as (U & D & E & HU & HD & Ha).
  exists U, D. repeat split; try assumption.
  rewrite <- E. apply std_sort_perm.
Qed.

End OrderingAtLarge.

Section Stability.

Lemma insertion_step_split {A} (comp : A -> A -> bool) (rp : list A) (val : A) :
  exists rp1 rp2,
    rp = rp1 ++ rp2
    /\ insertion_step comp rp val = rp1 ++ val :: rp2
    /\ (Forall (fun x => comp val x = true) rp1
        \/ exists first t,
             rp1 = rev t ++ [first] /\ comp val first = true).
Proof.
  unfold insertion_step. destruct (rev rp) as [|first t] eqn:E.
  - assert (rp = []) as ->.
    { rewrite <- (rev_involutive rp), E. reflexivity. }
    exists [], []. repeat split. left. constructor.
  - assert (Erp : rp = rev t ++ [first]).
    { rewrite <- (rev_involutive rp), E. reflexivity. }
    destruct (comp val first) eqn:Ec.
    + exists rp, []. rewrite app_nil_r. repeat split.
      right. now exists first, t.
    + destruct (unguarded_linear_insert_split comp val rp)
        as (rp1 & rp2 & E1 & E2 & Hf).
      exists rp1, rp2. repeat split; try assumption. now left.
Qed.

Lemma tied_below_excluded (k : Z) (val x : Path.path) :
  tied_at k val = true -> dex_comparator val x = true -> tied_at k x = false.
Proof.
  unfold tied_at. rewrite dex_comparator_cases.
  intros Hv Hc. apply andb_prop in Hv as [Hd Hk]. rewrite Hd in Hc.
  apply Z.eqb_eq in Hk.
  destruct (dashed x); [|discriminate]. simpl.
  apply Z.ltb_lt in Hc. apply Z.eqb_neq. lia.
Qed.

Lemma insertion_step_tied (k : Z) (rp : list Path.path) (val : Path.path) :
  descending sort_rank rp ->
  filter (tied_at k) (insertion_step dex_comparator rp val)
  = (if tied_at k val then [val] else []) ++ filter (tied_at k) rp.
Proof.
  intros Hd.
  destruct (insertion_step_split dex_comparator rp val)
    as (rp1 & rp2 & E & -> & Hcase).
  rewrite E, !filter_app. simpl.
  destruct (tied_at k val) eqn:Ev; [|reflexivity].
  assert (Hnone : filter (tied_at k) rp1 = []).
  { destruct Hcase as [Hf|(first & t & E1 & Hc)].
    - clear - Hf Ev.
      induction Hf as [|x rp1' Hx _ IH]; [reflexivity|].
      simpl. now rewrite (tied_below_excluded k val x Ev Hx).
    - pose proof (tied_below_excluded k val first Ev Hc) as Hfirst.
      assert (Hlow : Forall (fun x => sort_rank first <= sort_rank x) (rev t)).
      { apply (descending_snoc_inv sort_rank (rev t) first).
        rewrite E, E1 in Hd.
        clear - Hd. revert Hd. generalize (rev t ++ [first]).
        intros l Hd. induction l as [|x l IH]; simpl in *.
        - constructor.
        - inversion Hd as [|? ? Hs Hf]; subst. constructor.
          + now apply IH.
          + rewrite Forall_forall in Hf |- *. intros y Hy.
            apply Hf, in_or_app. now left. }
      rewrite dex_comparator_cases in Hc.
      unfold tied_at in Ev. apply andb_prop in Ev as [Edv Ekv].
      apply Z.eqb_eq in Ekv. rewrite Edv in Hc.
      destruct (dashed first) eqn:Edf; [|discriminate].
      apply Z.ltb_lt in Hc.
      rewrite E1, filter_app. simpl. rewrite Hfirst, app_nil_r.
      clear - Hlow Hc Ekv Edf.
      induction Hlow as [|x l Hx _ IH]; [reflexivity|].
      simpl. rewrite IH.
      unfold tied_at, sort_rank in *. rewrite Edf in Hx.
      pose proof (suffix_number_range first).
      destruct (dashed x); simpl; [|reflexivity].
      destruct (Z.eqb_spec (suffix_number x) k); [lia|reflexivity]. }
  now rewrite Hnone.
Qed.

Lemma fold_insertion_step_tied (k : Z) (l : list Path.path) :
  forall acc,
    descending sort_rank acc ->
    filter (tied_at k) (fold_left (insertion_step dex_comparator) l acc)
    = rev (filter (tied_at k) l) ++ filter (tied_at k) acc.
Proof.
  induction l as [|x l IH]; intros acc Hacc; simpl.
  - reflexivity.
  - rewrite IH
      by (apply (insertion_step_follows _ _ dex_follows_rank); assumption).
    rewrite (insertion_step_tied k acc x Hacc).
    destruct (tied_at k x); simpl.
    + now rewrite <- app_assoc.
    + reflexivity.
Qed.

(** X4. Ties keep the order of the directory: among up to 16 container
    files, the names with a dash that carry the same number come out of
    the sort in the order the directory iterator listed them. *)
Theorem ties_keep_directory_order (l : list Path.path) (k : Z) :
  (List.length l <= S_threshold)%nat ->
  filter (tied_at k) (std_sort dex_comparator l) = filter (tied_at k) l.
Proof.
  intros _. unfold std_sort.
  rewrite filter_rev, (fold_insertion_step_tied k l []) by constructor.
  simpl. now rewrite app_nil_r, rev_involutive.
Qed.

End Stability.

(* ================================================================== *)
(** ** Discovery, seen from the directory listing                       *)
(* ================================================================== *)

Section Discovery.

Context {DexClasses : Type}.
Variable w : World DexClasses.

Lemma regular_file_exists (p : Path.path) :
  is_regular_file (fs w) p && exists_ (fs w) p = is_regular_file (fs w) p.
Proof.
  unfold is_regular_file, exists_.
  now destruct (status (fs w) p) as [[]|].
Qed.

Lemma discovered_dexen_names (dir : Path.path) :
  (forall n, In n (readdir (fs w) dir) ->
             Str.rfind Path.preferred_separator n = None) ->
  discovered_dexen w dir
  = map (Path.slash dir) (filter (is_dex_entry w dir) (readdir (fs w) dir)).
Proof.
  intros Hwf. rewrite discovered_dexen_filter. unfold directory_iterator.
  rewrite filter_map_swap. f_equal.
  apply filter_ext_in. intros n Hn. unfold is_dex_entry.
  now rewrite (extension_slash dir n (Hwf n Hn)).
Qed.

Lemma list_modules_names (dir : Path.path) :
  (forall n, In n (readdir (fs w) dir) ->
             Str.rfind Path.preferred_separator n = None) ->
  list_modules w dir = filter (qualifiesb w dir) (readdir (fs w) dir).
Proof.
  intros Hwf. rewrite list_modules_filter. unfold directory_iterator.
  rewrite filter_map_swap, map_map.
  rewrite (filter_ext_in _ (qualifiesb w dir)).
  - rewrite <- (map_id (filter _ _)) at 2.
    apply map_ext_in. intros n Hn. apply filter_In in Hn as [Hn _].
    apply filename_slash, Hwf, Hn.
  - intros n Hn. unfold qualifiesb.
    rewrite (probed_metadata_slash dir n (Hwf n Hn)).
    now rewrite <- andb_assoc, regular_file_exists.
Qed.

Lemma append_length (a b : string) :
  String.length (a ++ b)%string = (String.length a + String.length b)%nat.
Proof. induction a; simpl; congruence. Qed.

Lemma append_cancel_l (a b c : string) :
  (a ++ b)%string = (a ++ c)%string -> b = c.
Proof. induction a; simpl; intros H; [assumption|]. injection H. auto. Qed.

(** X5. What the primary store is made of: with entries named as the
    operating system names them, the files [load_root_dexen] discovers
    are the entries of the directory that are regular files and whose
    name has the extension ".dex", in the order of the directory
    listing; the sort then rearranges exactly these files. *)
Theorem primary_store_files (dir : Path.path) :
  (forall n, In n (readdir (fs w) dir) ->
             Str.rfind Path.preferred_separator n = None) ->
  discovered_dexen w dir
  = map (Path.slash dir) (filter (is_dex_entry w dir) (readdir (fs w) dir))
  /\ Permutation (discovered_dexen w dir) (sorted_dexen w dir)
  /\ (forall n, In (Path.slash dir n) (sorted_dexen w dir) ->
                In n (readdir (fs w) dir) ->
                status (fs w) (Path.slash dir n) = Some regular_file
                /\ Path.extension n = ".dex").
Proof.
  intros Hwf. split; [now apply discovered_dexen_names|].
  split; [apply std_sort_perm|].
  intros n Hin Hn.
  apply (Permutation_in _ (Permutation_sym (std_sort_perm _ _))) in Hin.
  rewrite discovered_dexen_filter in Hin. apply filter_In in Hin as [_ Hq].
  rewrite (extension_slash dir n (Hwf n Hn)) in Hq.
  apply andb_prop in Hq as [Hr He]. split.
  - unfold is_regular_file in Hr.
    now destruct (status (fs w) (Path.slash dir n)) as [[]|].
  - now apply String.eqb_eq.
Qed.

(** X6. The module list is the directory listing, filtered: with entries
    named as the operating system names them, [list_modules] returns the
    qualifying entries in the order of the listing, each as often as the
    listing has it. *)
Theorem module_list_is_filtered_listing (dir : Path.path) :
  (forall n, In n (readdir (fs w) dir) ->
             Str.rfind Path.preferred_separator n = None) ->
  list_modules w dir = filter (qualifiesb w dir) (readdir (fs w) dir)
  /\ (NoDup (readdir (fs w) dir) -> NoDup (list_modules w dir))
  /\ (forall n, qualifiesb w dir n = true <-> qualifies w dir n).
Proof.
  intros Hwf. rewrite (list_modules_names dir Hwf).
  split; [reflexivity|]. split; [apply NoDup_filter|].
  intros n. unfold qualifiesb, qualifies, is_directory, is_regular_file.
  destruct (status (fs w) (Path.slash dir n)) as [[]|];
    destruct (status (fs w) _) as [[]|]; simpl; split;
    try discriminate; try tauto; intros [H1 H2]; discriminate.
Qed.

(** X7. The metadata file [Tool::init] parses is the one [list_modules]
    probed: when the directory is given without a trailing separator,
    the two paths are the same text for every entry, and for every
    listed module that path is a regular file. *)
Theorem parsed_metadata_is_probed (dir : Path.path) (module : string) :
  (forall n, In n (readdir (fs w) dir) ->
             Str.rfind Path.preferred_separator n = None) ->
  dir <> "" -> Path.ends_with_separator dir = false ->
  In module (list_modules w dir) ->
  metadata_path_of dir module = probed_metadata (Path.slash dir module)
  /\ status (fs w) (metadata_path_of dir module) = Some regular_file.
Proof.
  intros Hwf Hne Hsep Hin.
  rewrite (list_modules_names dir Hwf) in Hin.
  apply filter_In in Hin as [Hn Hq].
  assert (E : metadata_path_of dir module
              = probed_metadata (Path.slash dir module)).
  { rewrite (probed_metadata_slash dir module (Hwf module Hn)).
    unfold metadata_path_of, Path.append_str, Path.append_char, Path.slash.
    rewrite Hsep. apply String.eqb_neq in Hne. rewrite Hne. simpl.
    now rewrite !append_assoc. }
  split; [exact E|].
  rewrite E, (probed_metadata_slash dir module (Hwf module Hn)).
  unfold qualifiesb in Hq. apply andb_prop in Hq as [_ Hr].
  unfold is_regular_file in Hr.
  now destruct (status (fs w) _) as [[]|].
Qed.

(** X8. A trailing separator is doubled: when the directory is given
    with a trailing separator, the path [Tool::init] parses for a module
    has one separator more than the path [list_modules] probed, so the
    two differ as text. *)
Theorem trailing_separator_is_doubled (dir : Path.path) (module : string) :
  Path.ends_with_separator dir = true ->
  Str.rfind Path.preferred_separator module = None ->
  probed_metadata (Path.slash dir module)
  = String.append dir
      (String.append module (String.append "/" (String.append module ".json")))
  /\ metadata_path_of dir module
     = String.append dir
         (String.append "/"
            (String.append module
               (String.append "/" (String.append module ".json"))))
  /\ metadata_path_of dir module <> probed_metadata (Path.slash dir module).
Proof.
  intros Hsep Hm.
  assert (E1 : probed_metadata (Path.slash dir module)
               = String.append dir
                   (String.append module
                      (String.append "/" (String.append module ".json")))).
  { rewrite (probed_metadata_slash dir module Hm). unfold Path.slash.
    rewrite Hsep. simpl. now rewrite !append_assoc. }
  assert (E2 : metadata_path_of dir module
               = String.append dir
                   (String.append "/"
                      (String.append module
                         (String.append "/" (String.append module ".json"))))).
  { unfold metadata_path_of, Path.append_str, Path.append_char.
    now rewrite !append_assoc. }
  split; [exact E1|]. split; [exact E2|].
  rewrite E1, E2. intros H. apply append_cancel_l in H.
  apply (f_equal String.length) in H. simpl in H. lia.
Qed.

End Discovery.

(* ================================================================== *)
(** ** Runs of [Tool::init], outcome by outcome                         *)
(* ================================================================== *)

Section Outcomes.

Context {DexClasses : Type}.
Variable w : World DexClasses.

(** *** When everything loads *)

Lemma loads_are_classes_of (xs : list string) (cs : list DexClasses) :
  Forall2 (loads_as w) xs cs -> cs = classes_of w xs.
Proof.
  induction 1 as [|x c xs cs Hx _ IH]; simpl.
  - reflexivity.
  - unfold loads_as in Hx. rewrite Hx. simpl. now f_equal.
Qed.

Lemma dex_ok_classes_of (xs : list string) :
  Forall (fun x => dex_ok w x = true) xs ->
  Forall2 (loads_as w) xs (classes_of w xs).
Proof.
  intros H. destruct (dex_ok_loads w xs H) as (cs & Hcs).
  now rewrite <- (loads_are_classes_of xs cs Hcs).
Qed.

Lemma loads_are_ok (xs : list string) (cs : list DexClasses) :
  Forall2 (loads_as w) xs cs -> Forall (fun x => dex_ok w x = true) xs.
Proof.
  induction 1 as [|x c xs cs Hx _ IH]; constructor; [|assumption].
  unfold dex_ok. unfold loads_as in Hx. now rewrite Hx.
Qed.

Lemma module_store_is_expected (dir : Path.path) (module : string)
  (store : DexStore DexClasses) :
  module_store_of w dir module store ->
  module_ok w dir module /\ module_stores w dir [module] = [store].
Proof.
  intros (m & Hp & Hm & Hl). split.
  - exists m. split; [assumption|]. eapply loads_are_ok, Hl.
  - unfold module_stores. simpl. rewrite Hp. simpl.
    rewrite <- (loads_are_classes_of _ _ Hl).
    destruct store as [sm sd]. simpl in *. now subst sm.
Qed.

Lemma module_stores_app (dir : Path.path) (ms ms' : list string) :
  module_stores w dir (ms ++ ms')
  = module_stores w dir ms ++ module_stores w dir ms'.
Proof. apply flat_map_app. Qed.

Lemma module_stores_are_expected (dir : Path.path) (modules : list string)
  (stores : list (DexStore DexClasses)) :
  Forall2 (module_store_of w dir) modules stores ->
  Forall (module_ok w dir) modules /\ stores = module_stores w dir modules.
Proof.
  induction 1 as [|m s modules stores Hm _ [IHok IHs]].
  - split; [constructor | reflexivity].
  - destruct (module_store_is_expected dir m s Hm) as [Hok Hs]. split.
    + now constructor.
    + change (m :: modules) with ([m] ++ modules).
      now rewrite module_stores_app, Hs, <- IHs.
Qed.

Lemma load_module_ok (dir : Path.path) (module : string)
  (stores : DexStoresVector DexClasses) :
  module_ok w dir module ->
  load_module w dir module stores
  = (module_events w dir [module],
     inr (stores ++ module_stores w dir [module])).
Proof.
  intros (m & Hp & Hf). unfold load_module, module_events, module_stores.
  simpl. rewrite call_parse_eq, Hp, bind_inr, load_store_dexen_eq.
  rewrite (load_loop_ok w _ _ (dex_ok_classes_of _ Hf)). simpl.
  now rewrite !app_nil_r.
Qed.

Lemma module_loop_ok (dir : Path.path) (modules : list string) :
  Forall (module_ok w dir) modules ->
  forall stores,
    for_each (load_module w dir) modules stores
    = (module_events w dir modules,
       inr (stores ++ module_stores w dir modules)).
Proof.
  induction 1 as [|m modules Hm _ IH]; intros stores.
  - simpl. unfold ret. now rewrite app_nil_r.
  - cbn [for_each]. rewrite (load_module_ok dir m stores Hm), bind_inr, IH.
    simpl fst. simpl snd.
    change (m :: modules) with ([m] ++ modules).
    now rewrite module_events_app, module_stores_app, <- app_assoc.
Qed.

Lemma after_jars_ok (dir : Path.path) :
  Forall (fun x => dex_ok w x = true) (sorted_dexen w dir) ->
  Forall (module_ok w dir) (list_modules w dir) ->
  after_jars w dir
  = (load_events (sorted_dexen w dir)
     ++ module_events w dir (list_modules w dir)
     ++ [Stdout "Initializing reachable classes"; InitReachableClasses],
     inr (expected_stores w dir)).
Proof.
  intros Hd Hm. unfold after_jars.
  rewrite load_root_dexen_eq.
  rewrite (load_loop_ok w _ _ (dex_ok_classes_of _ Hd)), bind_inr.
  rewrite (module_loop_ok dir _ Hm), bind_inr. reflexivity.
Qed.

Lemma init_ok (jars apk dir : string) :
  is_directory (fs w) dir = true ->
  Forall (fun j => load_jar_file w j = true) (split delim jars) ->
  Forall (fun x => dex_ok w x = true) (sorted_dexen w dir) ->
  Forall (module_ok w dir) (list_modules w dir) ->
  init w jars apk dir = (expected_trace w jars dir, inr (expected_stores w dir)).
Proof.
  intros Hdir Hj Hd Hm.
  rewrite (init_eq w jars apk dir Hdir), load_jars_eq.
  rewrite (jar_loop_ok w _ tt Hj), bind_inr.
  now rewrite (after_jars_ok dir Hd Hm).
Qed.

(** What a run of [init] that returns has done, and when it returns. *)
Lemma init_returns_spec (jars apk dir : string) (tr : list event)
  (stores : DexStoresVector DexClasses) :
  init w jars apk dir = (tr, inr stores)
  <-> is_directory (fs w) dir = true
      /\ Forall (fun j => load_jar_file w j = true) (split delim jars)
      /\ Forall (fun x => dex_ok w x = true) (sorted_dexen w dir)
      /\ Forall (module_ok w dir) (list_modules w dir)
      /\ tr = expected_trace w jars dir
      /\ stores = expected_stores w dir.
Proof.
  split.
  - intros H.
    apply init_inr in H as (Hdir & Hj & cs & ms & Hcs & Hms & -> & ->).
    destruct (module_stores_are_expected dir _ ms Hms) as [Hok ->].
    repeat split; try assumption.
    + eapply loads_are_ok, Hcs.
    + unfold expected_stores. now rewrite <- (loads_are_classes_of _ _ Hcs).
  - intros (Hdir & Hj & Hd & Hm & -> & ->). now apply init_ok.
Qed.

Lemma dexes_of_module_events (dir : Path.path) (modules : list string) :
  dexes_attempted (module_events w dir modules)
  = flat_map (declared_files w dir) modules.
Proof.
  induction modules as [|m modules IH]; simpl.
  - reflexivity.
  - rewrite dexes_attempted_app, IH. f_equal.
    unfold declared_files.
    destruct (parse w (metadata_path_of dir m)).
    + apply dexes_of_load_events.
    + reflexivity.
Qed.

Lemma jars_of_load_events (xs : list string) :
  jars_attempted (load_events xs) = [].
Proof. induction xs; simpl; congruence. Qed.

Lemma jars_of_module_events (dir : Path.path) (modules : list string) :
  jars_attempted (module_events w dir modules) = [].
Proof.
  induction modules as [|m modules IH]; simpl.
  - reflexivity.
  - rewrite jars_attempted_app, IH, app_nil_r.
    destruct (parse w (metadata_path_of dir m)).
    + apply jars_of_load_events.
    + reflexivity.
Qed.

(** X10. The load sequence of a run that returns: the archives handed
    to the archive loader are the tokens of the list, in order; the
    container files handed to the loader are those of the directory, each
    once, in the sorted order when there are at most 16 of them,
    followed by the declared files of each module, module by module in
    the order of [list_modules]; and the reachability analysis starts
    last. *)
Theorem load_sequence_of_a_run (jars apk dir : string) (tr : list event)
  (stores : DexStoresVector DexClasses) :
  init w jars apk dir = (tr, inr stores) ->
  jars_attempted tr = split delim jars
  /\ (exists root_order,
        Permutation (discovered_dexen w dir) root_order
        /\ dexes_attempted tr
           = root_order
             ++ flat_map (declared_files w dir) (list_modules w dir)
        /\ ((List.length (discovered_dexen w dir) <= S_threshold)%nat ->
            root_order = sorted_dexen w dir))
  /\ exists t, tr = t ++ [InitReachableClasses]
               /\ ~ In InitReachableClasses t.
Proof.
  intros H. apply init_inr in H as (_ & _ & cs & ms & _ & _ & _ & ->).
  split; [|split].
  - rewrite !jars_attempted_app, jars_of_jar_events, jars_of_load_events,
      jars_of_module_events. simpl. now rewrite app_nil_r.
  - exists (sorted_dexen w dir). split; [apply std_sort_perm|].
    split; [|reflexivity].
    rewrite !dexes_attempted_app, dexes_of_jar_events, dexes_of_load_events,
      dexes_of_module_events. simpl. now rewrite app_nil_r.
  - exists (jar_events (split delim jars)
            ++ load_events (sorted_dexen w dir)
            ++ module_events w dir (list_modules w dir)
            ++ [Stdout "Initializing reachable classes"]).
    split.
    + now rewrite <- !app_assoc.
    + rewrite !in_app_iff. intros [Hi|[Hi|[Hi|Hi]]].
      * unfold jar_events in Hi. apply in_flat_map in Hi as (x & _ & Hx).
        simpl in Hx. intuition discriminate.
      * unfold load_events in Hi. apply in_flat_map in Hi as (x & _ & Hx).
        simpl in Hx. intuition discriminate.
      * unfold module_events in Hi. apply in_flat_map in Hi as (x & _ & Hx).
        destruct Hx as [Hx|Hx]; [discriminate|].
        destruct (parse w (metadata_path_of dir x)); [|contradiction].
        unfold load_events in Hx. apply in_flat_map in Hx as (y & _ & Hy).
        simpl in Hy. intuition discriminate.
      * simpl in Hi. intuition discriminate.
Qed.

(** X11. A directory without container files and without modules: when
    the archives register, the run returns one store, the primary store
    "dex", with no batch in it, having called neither the container
    loader nor the metadata parser. *)
Theorem empty_directory_gives_empty_primary_store (jars apk dir : string) :
  is_directory (fs w) dir = true ->
  Forall (fun j => load_jar_file w j = true) (split delim jars) ->
  discovered_dexen w dir = [] -> list_modules w dir = [] ->
  init w jars apk dir
  = (jar_events (split delim jars)
     ++ [Stdout "Initializing reachable classes"; InitReachableClasses],
     inr [DexStore_named "dex"]).
Proof.
  intros Hdir Hj Hd Hm.
  assert (Hs : sorted_dexen w dir = []).
  { unfold sorted_dexen. now rewrite Hd. }
  rewrite (init_ok jars apk dir Hdir Hj).
  - unfold expected_trace, expected_stores. now rewrite Hs, Hm.
  - rewrite Hs. constructor.
  - rewrite Hm. constructor.
Qed.

(** *** When something fails *)

Lemma fails_at_last_bind {A B} (m : M A) (k : A -> M B) :
  fails_at_last w m -> (forall a, fails_at_last w (k a)) ->
  fails_at_last w (bind m k).
Proof.
  intros Hm Hk. destruct m as [t [e|a]].
  - intros e' H. simpl in H. injection H as <-.
    destruct (Hm e eq_refl) as (t0 & ev & E & Hc).
    exists t0, ev. now split.
  - rewrite bind_inr. intros e' H. simpl in H.
    destruct (Hk a e' H) as (t0 & ev & E & Hc).
    exists (t ++ t0), ev. simpl. rewrite E. now rewrite app_assoc.
Qed.

Lemma fails_at_last_never {A} (m : M A) :
  (forall e, snd m <> inl e) -> fails_at_last w m.
Proof. intros H e He. now apply H in He. Qed.

Lemma fails_at_last_for_each {X S} (body : X -> S -> M S) (xs : list X) :
  (forall x s, fails_at_last w (body x s)) ->
  forall s, fails_at_last w (for_each body xs s).
Proof.
  intros Hb. induction xs as [|x xs IH]; intros s.
  - now apply fails_at_last_never.
  - cbn [for_each]. now apply fails_at_last_bind.
Qed.

Lemma fails_at_last_load_body (dex : string) (store : DexStore DexClasses) :
  fails_at_last w (load_body w dex store).
Proof.
  rewrite load_body_eq.
  destruct (load_classes_from_dex w dex) eqn:E.
  - now apply fails_at_last_never.
  - intros e He. simpl in He. injection He as <-.
    exists [Stdout (String.append "Loading " dex)], (LoadDex dex).
    simpl. auto.
Qed.

Lemma fails_at_last_jar_body (jar : string) (u : unit) :
  fails_at_last w (jar_body w jar u).
Proof.
  rewrite jar_body_eq.
  destruct (load_jar_file w jar) eqn:E.
  - now apply fails_at_last_never.
  - intros e He. simpl in He. injection He as <-.
    exists [Stdout (String.append "Loading " jar)], (LoadJar jar).
    simpl. auto.
Qed.

Lemma fails_at_last_load_module (dir : Path.path) (module : string)
  (stores : DexStoresVector DexClasses) :
  fails_at_last w (load_module w dir module stores).
Proof.
  unfold load_module. apply fails_at_last_bind.
  - rewrite call_parse_eq.
    destruct (parse w (metadata_path_of dir module)) eqn:E.
    + now apply fails_at_last_never.
    + intros e He. simpl in He. injection He as <-.
      exists [], (ParseMetadata (metadata_path_of dir module)).
      simpl. auto.
  - intros m. apply fails_at_last_bind.
    + rewrite load_store_dexen_eq.
      apply fails_at_last_for_each, fails_at_last_load_body.
    + intros store. now apply fails_at_last_never.
Qed.

Lemma fails_at_last_after_jars (dir : Path.path) :
  fails_at_last w (after_jars w dir).
Proof.
  unfold after_jars. apply fails_at_last_bind.
  - rewrite load_root_dexen_eq.
    apply fails_at_last_for_each, fails_at_last_load_body.
  - intros root_store. apply fails_at_last_bind.
    + apply fails_at_last_for_each. intros. apply fails_at_last_load_module.
    + intros stores. now apply fails_at_last_never.
Qed.

Lemma module_loop_fail (dir : Path.path) (pre : list string) (m : string)
  (post : list string) (t : list event) (e : exn) :
  Forall (module_ok w dir) pre ->
  (forall stores, load_module w dir m stores = (t, inl e)) ->
  forall stores,
    for_each (load_module w dir) (pre ++ m :: post) stores
    = (module_events w dir pre ++ t, inl e).
Proof.
  intros Hp Hm. induction Hp as [|x pre Hx _ IH]; intros stores.
  - cbn [app for_each]. now rewrite Hm.
  - cbn [app for_each].
    rewrite (load_module_ok dir x stores Hx), bind_inr, IH. simpl fst.
    change (x :: pre) with ([x] ++ pre).
    now rewrite module_events_app, <- app_assoc.
Qed.

Lemma load_module_unparsed (dir : Path.path) (m : string)
  (stores : DexStoresVector DexClasses) :
  parse w (metadata_path_of dir m) = None ->
  load_module w dir m stores
  = ([ParseMetadata (metadata_path_of dir m)],
     inl (parse_failure (metadata_path_of dir m))).
Proof. intros H. unfold load_module. now rewrite call_parse_eq, H. Qed.

Lemma load_module_bad_file (dir : Path.path) (m : string) (md : DexMetadata)
  (pre : list string) (bad : string) (post : list string)
  (stores : DexStoresVector DexClasses) :
  parse w (metadata_path_of dir m) = Some md ->
  get_files md = pre ++ bad :: post ->
  Forall (fun x => dex_ok w x = true) pre ->
  dex_ok w bad = false ->
  load_module w dir m stores
  = (ParseMetadata (metadata_path_of dir m) :: load_events (pre ++ [bad]),
     inl (load_failure bad)).
Proof.
  intros Hp Hf Hpre Hbad. unfold load_module.
  rewrite call_parse_eq, Hp, bind_inr, load_store_dexen_eq, Hf.
  now rewrite (load_loop_fail w pre bad post Hpre Hbad).
Qed.

Lemma sorted_dexen_all (P : Path.path -> Prop) (dir : Path.path) :
  Forall P (discovered_dexen w dir) -> Forall P (sorted_dexen w dir).
Proof. apply Permutation_Forall, std_sort_perm. Qed.

(** X14. The primary store fails fast: when the path is a directory
    with at most 16 container files and the archives register, the first
    container file of the sorted order that does not load ends the run
    with the loader's exception for it; the files before it were loaded,
    and neither a later file nor any metadata file was touched. *)
Theorem primary_store_fails_fast (jars apk dir : string)
  (pre : list string) (bad : string) (post : list string) :
  (List.length (discovered_dexen w dir) <= S_threshold)%nat ->
  is_directory (fs w) dir = true ->
  Forall (fun j => load_jar_file w j = true) (split delim jars) ->
  sorted_dexen w dir = pre ++ bad :: post ->
  Forall (fun x => dex_ok w x = true) pre ->
  dex_ok w bad = false ->
  init w jars apk dir
  = (jar_events (split delim jars) ++ load_events (pre ++ [bad]),
     inl (load_failure bad)).
Proof.
  intros _ Hdir Hj Hs Hpre Hbad.
  rewrite (init_eq w jars apk dir Hdir), load_jars_eq.
  rewrite (jar_loop_ok w _ tt Hj), bind_inr.
  unfold after_jars. rewrite load_root_dexen_eq, Hs.
  now rewrite (load_loop_fail w pre bad post Hpre Hbad).
Qed.

(** X15. Metadata that does not parse: when everything before it went
    well, the first module whose metadata file the parser rejects ends
    the run with the parser's exception for that file; the container
    files of the directory were loaded, each once (in the sorted order
    when there are at most 16), the modules before it were assembled, no
    file of the module and no later module was touched, and no
    collection is returned. *)
Theorem unparsed_metadata_ends_the_run (jars apk dir : string)
  (pre : list string) (m : string) (post : list string) :
  is_directory (fs w) dir = true ->
  Forall (fun j => load_jar_file w j = true) (split delim jars) ->
  Forall (fun x => dex_ok w x = true) (discovered_dexen w dir) ->
  list_modules w dir = pre ++ m :: post ->
  Forall (module_ok w dir) pre ->
  parse w (metadata_path_of dir m) = None ->
  exists root_order,
    Permutation (discovered_dexen w dir) root_order
    /\ init w jars apk dir
       = (jar_events (split delim jars)
          ++ load_events root_order
          ++ module_events w dir pre
          ++ [ParseMetadata (metadata_path_of dir m)],
          inl (parse_failure (metadata_path_of dir m)))
    /\ ((List.length (discovered_dexen w dir) <= S_threshold)%nat ->
        root_order = sorted_dexen w dir).
Proof.
  intros Hdir Hj Hd Hl Hpre Hm.
  apply sorted_dexen_all in Hd.
  exists (sorted_dexen w dir). split; [apply std_sort_perm|].
  split; [|reflexivity].
  rewrite (init_eq w jars apk dir Hdir), load_jars_eq.
  rewrite (jar_loop_ok w _ tt Hj), bind_inr.
  unfold after_jars. rewrite load_root_dexen_eq.
  rewrite (load_loop_ok w _ _ (dex_ok_classes_of _ Hd)), bind_inr, Hl.
  rewrite (module_loop_fail dir pre m post _ _ Hpre
             (fun stores => load_module_unparsed dir m stores Hm)).
  reflexivity.
Qed.

(** X16. A module fails fast: when everything before it went well, the
    first declared file of a module that does not load ends the run with
    the loader's exception for it, right after the declared files before
    it; the container files of the directory were loaded, each once (in
    the sorted order when there are at most 16), and the rest of the
    module and the later modules are not touched. *)
Theorem module_store_fails_fast (jars apk dir : string)
  (pre : list string) (m : string) (post : list string) (md : DexMetadata)
  (fpre : list string) (bad : string) (fpost : list string) :
  is_directory (fs w) dir = true ->
  Forall (fun j => load_jar_file w j = true) (split delim jars) ->
  Forall (fun x => dex_ok w x = true) (discovered_dexen w dir) ->
  list_modules w dir = pre ++ m :: post ->
  Forall (module_ok w dir) pre ->
  parse w (metadata_path_of dir m) = Some md ->
  get_files md = fpre ++ bad :: fpost ->
  Forall (fun x => dex_ok w x = true) fpre ->
  dex_ok w bad = false ->
  exists root_order,
    Permutation (discovered_dexen w dir) root_order
    /\ init w jars apk dir
       = (jar_events (split delim jars)
          ++ load_events root_order
          ++ module_events w dir pre
          ++ ParseMetadata (metadata_path_of dir m)
             :: load_events (fpre ++ [bad]),
          inl (load_failure bad))
    /\ ((List.length (discovered_dexen w dir) <= S_threshold)%nat ->
        root_order = sorted_dexen w dir).
Proof.
  intros Hdir Hj Hd Hl Hpre Hp Hf Hfpre Hbad.
  apply sorted_dexen_all in Hd.
  exists (sorted_dexen w dir). split; [apply std_sort_perm|].
  split; [|reflexivity].
  rewrite (init_eq w jars apk dir Hdir), load_jars_eq.
  rewrite (jar_loop_ok w _ tt Hj), bind_inr.
  unfold after_jars. rewrite load_root_dexen_eq.
  rewrite (load_loop_ok w _ _ (dex_ok_classes_of _ Hd)), bind_inr, Hl.
  rewrite (module_loop_fail dir pre m post _ _ Hpre
             (fun stores =>
                load_module_bad_file dir m md fpre bad fpost stores
                  Hp Hf Hfpre Hbad)).
  reflexivity.
Qed.

(** *** The reachability analysis *)

Lemma reach_free_bind {A B} (m : M A) (k : A -> M B) :
  reach_free m -> (forall a, reach_free (k a)) -> reach_free (bind m k).
Proof.
  unfold reach_free. intros Hm Hk. destruct m as [t [e|a]].
  - exact Hm.
  - rewrite bind_inr. simpl in *. rewrite in_app_iff.
    intros [H|H]; [now apply Hm | now apply (Hk a)].
Qed.

Lemma reach_free_for_each {X S} (body : X -> S -> M S) (xs : list X) :
  (forall x s, reach_free (body x s)) ->
  forall s, reach_free (for_each body xs s).
Proof.
  intros Hb. induction xs as [|x xs IH]; intros s.
  - intros [].
  - cbn [for_each]. now apply reach_free_bind.
Qed.

Lemma reach_free_load_body (dex : string) (store : DexStore DexClasses) :
  reach_free (load_body w dex store).
Proof.
  rewrite load_body_eq. unfold reach_free.
  destruct (load_classes_from_dex w dex); simpl; intuition discriminate.
Qed.

Lemma reach_free_jar_body (jar : string) (u : unit) :
  reach_free (jar_body w jar u).
Proof.
  rewrite jar_body_eq. unfold reach_free.
  destruct (load_jar_file w jar); simpl; intuition discriminate.
Qed.

Lemma reach_free_load_module (dir : Path.path) (module : string)
  (stores : DexStoresVector DexClasses) :
  reach_free (load_module w dir module stores).
Proof.
  unfold load_module. apply reach_free_bind.
  - rewrite call_parse_eq. unfold reach_free.
    destruct (parse w (metadata_path_of dir module)); simpl;
      intuition discriminate.
  - intros m. apply reach_free_bind.
    + rewrite load_store_dexen_eq.
      apply reach_free_for_each, reach_free_load_body.
    + intros store. intros [].
Qed.

Lemma failed_bind_reach_free {A B} (m : M A) (k : A -> M B) :
  reach_free m ->
  (forall a e, snd (k a) = inl e -> reach_free (k a)) ->
  forall e, snd (bind m k) = inl e -> reach_free (bind m k).
Proof.
  unfold reach_free. intros Hm Hk e. destruct m as [t [e'|a]].
  - intros _. exact Hm.
  - rewrite bind_inr. simpl. intros He. rewrite in_app_iff.
    intros [H|H]; [now apply Hm | now apply (Hk a e He)].
Qed.

(** X17. The reachability analysis runs on a complete collection only:
    it is started exactly in the runs of [Tool::init] that return a
    collection, so never after a failure and never on a part of the
    stores. *)
Theorem reachability_starts_iff_returned (jars apk dir : string) :
  In InitReachableClasses (fst (init w jars apk dir))
  <-> exists stores, snd (init w jars apk dir) = inr stores.
Proof.
  split.
  - intros Hin.
    destruct (snd (init w jars apk dir)) as [e|stores] eqn:E; [|eauto].
    exfalso. revert Hin.
    destruct (is_directory (fs w) dir) eqn:Hdir.
    + revert E. rewrite (init_eq w jars apk dir Hdir). revert e.
      apply failed_bind_reach_free.
      * rewrite load_jars_eq.
        apply reach_free_for_each, reach_free_jar_body.
      * intros _. unfold after_jars. apply failed_bind_reach_free.
        -- rewrite load_root_dexen_eq.
           apply reach_free_for_each, reach_free_load_body.
        -- intros root_store. apply failed_bind_reach_free.
           ++ apply reach_free_for_each. intros.
              apply reach_free_load_module.
           ++ intros stores e. discriminate.
    + rewrite (init_not_directory w jars apk dir Hdir). intros [].
  - intros (stores & H).
    destruct (init w jars apk dir) as [tr r] eqn:E. simpl in H. subst r.
    apply init_inr in E as (_ & _ & cs & ms & _ & _ & _ & ->).
    simpl. rewrite !in_app_iff. right. right. right. simpl. auto.
Qed.

(** *** The archive list *)

Lemma split_tokens_free (s : string) :
  Forall (fun t => delimiter_free t = true) (split delim s).
Proof.
  induction s as [|c s IH]; simpl.
  - repeat constructor.
  - destruct (delim c) eqn:Ec.
    + now constructor.
    + destruct (split delim s) as [|t ts].
      * repeat constructor. simpl. now rewrite Ec.
      * inversion IH as [|? ? Ht Hts]; subst. constructor; [|assumption].
        simpl. now rewrite Ec.
Qed.

Lemma split_length (s : string) :
  List.length (split delim s) = S (count_delims s).
Proof.
  induction s as [|c s IH]; simpl.
  - reflexivity.
  - destruct (delim c); simpl.
    + now rewrite IH.
    + destruct (split delim s); simpl in *; [discriminate | assumption].
Qed.

Lemma jars_attempted_prefix (jars apk dir : string) :
  exists rest,
    split delim jars = jars_attempted (fst (init w jars apk dir)) ++ rest.
Proof.
  destruct (is_directory (fs w) dir) eqn:Hdir.
  - rewrite (init_eq w jars apk dir Hdir), load_jars_eq.
    destruct (first_failure (load_jar_file w) (split delim jars))
      as [Hok|(pre & bad & post & Hs & Hp & Hb)].
    + rewrite (jar_loop_ok w _ tt Hok), bind_inr. simpl.
      rewrite jars_attempted_app, jars_of_jar_events.
      rewrite (after_jars_no_jar w dir). exists []. now rewrite !app_nil_r.
    + rewrite Hs, (jar_loop_fail w pre bad post tt Hp Hb), bind_inl. simpl.
      rewrite jars_of_jar_events. exists post. now rewrite <- app_assoc.
  - rewrite (init_not_directory w jars apk dir Hdir). simpl. eauto.
Qed.

(** X18. What the archive loader is given: every path [Tool::init] hands
    to the archive loader is a token of the list, holds neither a comma
    nor a colon, and there are at most one more of them than the list
    has delimiters.  A path with a colon in it cannot be registered. *)
Theorem archive_paths_hold_no_delimiter (jars apk dir : string) :
  Forall (fun j => delimiter_free j = true)
    (jars_attempted (fst (init w jars apk dir)))
  /\ (List.length (jars_attempted (fst (init w jars apk dir)))
      <= S (count_delims jars))%nat
  /\ List.length (split delim jars) = S (count_delims jars).
Proof.
  destruct (jars_attempted_prefix jars apk dir) as (rest & E).
  pose proof (split_tokens_free jars) as Hf.
  pose proof (split_length jars) as Hl.
  rewrite E in Hf, Hl. apply Forall_app in Hf as [Hf _].
  rewrite length_app in Hl.
  split; [assumption|]. split; [lia|]. apply split_length.
Qed.

Lemma split_join (sep : ascii) (names : list string) :
  delim sep = true -> names <> [] ->
  Forall (fun n => delimiter_free n = true) names ->
  split delim (join sep names) = names.
Proof.
  intros Hsep Hne Hf. induction Hf as [|x names Hx Hf IH].
  - contradiction.
  - destruct names as [|y names].
    + simpl. now apply split_delimiter_free.
    + change (join sep (x :: y :: names))
        with (x ++ String sep (join sep (y :: names)))%string.
      rewrite (split_delimiter x sep _ Hx Hsep).
      f_equal. apply IH. discriminate.
Qed.

(** X19. Joining and splitting: a non-empty list of archive paths free
    of commas and colons, joined with a comma or a colon, splits back
    into the same list; when the path is a directory and the archives
    register, [Tool::init] hands exactly these paths to the archive
    loader, in the order of the list. *)
Theorem joined_archives_register_in_order (sep : ascii) (names : list string)
  (apk dir : string) :
  delim sep = true -> names <> [] ->
  Forall (fun n => delimiter_free n = true) names ->
  split delim (join sep names) = names
  /\ (is_directory (fs w) dir = true ->
      Forall (fun j => load_jar_file w j = true) names ->
      jars_attempted (fst (init w (join sep names) apk dir)) = names).
Proof.
  intros Hsep Hne Hf.
  pose proof (split_join sep names Hsep Hne Hf) as Hs.
  split; [exact Hs|].
  intros Hdir Hok.
  rewrite (init_eq w _ apk dir Hdir), load_jars_eq, Hs.
  rewrite (jar_loop_ok w _ tt Hok), bind_inr. simpl.
  rewrite jars_attempted_app, jars_of_jar_events.
  rewrite (after_jars_no_jar w dir). apply app_nil_r.
Qed.

End Outcomes.

(* ================================================================== *)
(** ** Runs of [Tool::init] with the file system faults                 *)
(* ================================================================== *)

Section CheckedOutcomes.

Context {DexClasses : Type}.
Variable f : faults.
Variable w : World DexClasses.

Lemma bind_ret {A B} (a : A) (k : A -> M B) : bind (ret a) k = k a.
Proof. unfold ret, bind. now destruct (k a). Qed.

Lemma bind_ext {A B} (m : M A) (k k' : A -> M B) :
  (forall a, k a = k' a) -> bind m k = bind m k'.
Proof. intros H. destruct m as [t [e|a]]; simpl; [reflexivity|]. now rewrite H. Qed.

Lemma init_checked_eq (jars apk dir : string) :
  stat_fails f dir = false -> is_directory (fs w) dir = true ->
  init_checked f w jars apk dir
  = (load_jars w jars ;;;
     root_store <- load_root_dexen_checked f w (DexStore_named "dex") dir ;;
     modules <- list_modules_checked f w dir ;;
     stores <- for_each (load_module w dir) modules
                 (emplace_back [] root_store) ;;
     emit (Stdout "Initializing reachable classes") ;;;
     emit InitReachableClasses ;;;
     ret stores).
Proof. intros Hs Hd. unfold init_checked. now rewrite Hs, Hd. Qed.

(** Without faults the run is the one of [init]. *)
Lemma init_checked_agrees (jars apk dir : string) :
  stat_fails f dir = false ->
  discovery_fault f (fs w) dir = None ->
  module_listing_fault f (fs w) dir = None ->
  init_checked f w jars apk dir = init w jars apk dir.
Proof.
  intros Hs Hd Hm. unfold init_checked, init. rewrite Hs.
  destruct (is_directory (fs w) dir); [|reflexivity]. simpl negb. cbv iota.
  apply bind_ext. intros _.
  unfold load_root_dexen_checked, list_modules_checked. rewrite Hd, Hm.
  apply bind_ext. intros root_store. now rewrite bind_ret.
Qed.

Lemma init_checked_inr (jars apk dir : string) (tr : list event)
  (stores : DexStoresVector DexClasses) :
  init_checked f w jars apk dir = (tr, inr stores) ->
  stat_fails f dir = false
  /\ discovery_fault f (fs w) dir = None
  /\ module_listing_fault f (fs w) dir = None.
Proof.
  intros H.
  destruct (stat_fails f dir) eqn:Hs.
  { unfold init_checked in H. rewrite Hs in H. discriminate. }
  destruct (is_directory (fs w) dir) eqn:Hd.
  2:{ unfold init_checked in H. rewrite Hs, Hd in H. discriminate. }
  rewrite (init_checked_eq jars apk dir Hs Hd) in H.
  apply bind_inr_inv in H as (t1 & u & t2 & _ & H2 & _).
  apply bind_inr_inv in H2 as (t3 & root_store & t4 & Hroot & H4 & _).
  apply bind_inr_inv in H4 as (t5 & modules & t6 & Hmod & _ & _).
  unfold load_root_dexen_checked in Hroot.
  unfold list_modules_checked in Hmod.
  destruct (discovery_fault f (fs w) dir); [discriminate|].
  destruct (module_listing_fault f (fs w) dir); [discriminate|].
  auto.
Qed.

(** X9. When a run returns, and what: over a directory with at most 16
    container files, [Tool::init] returns a collection exactly when the
    status of the path can be read and the path is a directory, every
    archive of the list registers, discovery meets no file system fault,
    every container file of the directory loads, the listing of the
    modules meets no file system fault, and the metadata of every module
    parses and each file it declares loads.  The collection is then the
    primary store followed by the module stores, each holding the
    batches of its files in load order, and the trace is the archives,
    the container files in sorted order, the modules one after the
    other, and the start of the reachability analysis. *)
Theorem init_returns_iff (jars apk dir : string) (tr : list event)
  (stores : DexStoresVector DexClasses) :
  (List.length (discovered_dexen w dir) <= S_threshold)%nat ->
  (init_checked f w jars apk dir = (tr, inr stores)
   <-> stat_fails f dir = false
       /\ is_directory (fs w) dir = true
       /\ Forall (fun j => load_jar_file w j = true) (split delim jars)
       /\ discovery_fault f (fs w) dir = None
       /\ Forall (fun x => dex_ok w x = true) (discovered_dexen w dir)
       /\ module_listing_fault f (fs w) dir = None
       /\ Forall (module_ok w dir) (list_modules w dir)
       /\ tr = expected_trace w jars dir
       /\ stores = expected_stores w dir).
Proof.
  intros _. split.
  - intros H.
    destruct (init_checked_inr jars apk dir tr stores H) as (Hs & Hd & Hm).
    rewrite (init_checked_agrees jars apk dir Hs Hd Hm) in H.
    apply init_returns_spec in H as (Hdir & Hj & Hx & Hmods & Ht & Hst).
    repeat split; try assumption.
    eapply Permutation_Forall; [apply Permutation_sym, std_sort_perm|].
    exact Hx.
  - intros (Hs & Hdir & Hj & Hd & Hx & Hm & Hmods & Ht & Hst).
    rewrite (init_checked_agrees jars apk dir Hs Hd Hm).
    apply init_returns_spec. repeat split; try assumption.
    now apply sorted_dexen_all.
Qed.

(** *** Where an exception comes from *)

Lemma explained_of_fails_at_last (dir : Path.path) {A} (m : M A) :
  fails_at_last w m -> explained f w dir m.
Proof. intros H e He. right. now apply H. Qed.

Lemma explained_bind (dir : Path.path) {A B} (m : M A) (k : A -> M B) :
  explained f w dir m -> (forall a, explained f w dir (k a)) ->
  explained f w dir (bind m k).
Proof.
  intros Hm Hk. destruct m as [t [e|a]].
  - intros e' H. simpl in H. injection H as <-.
    destruct (Hm e eq_refl) as [Hf|(t0 & ev & E & Hc)].
    + now left.
    + right. exists t0, ev. now split.
  - rewrite bind_inr. intros e' H. simpl in H.
    destruct (Hk a e' H) as [Hf|(t0 & ev & E & Hc)].
    + now left.
    + right. exists (t ++ t0), ev. simpl. rewrite E. now rewrite app_assoc.
Qed.

(** X12. Where an exception comes from: when [Tool::init] throws, either
    the status of the path could not be read, nothing was done and the
    exception is the [filesystem_error] for the path; or the path is not
    a directory, nothing was done and the exception is the
    invalid-argument error that names it; or a call to the file system
    failed while the container files or the modules were discovered, and
    the exception is the [filesystem_error] for the path of that call;
    or the last thing the run did is a call to the archive loader, the
    container loader or the metadata parser that failed, and the
    exception is the one of that call, naming its path. *)
Theorem exception_comes_from_last_call (jars apk dir : string) (e : exn) :
  snd (init_checked f w jars apk dir) = inl e ->
  (stat_fails f dir = true
   /\ fst (init_checked f w jars apk dir) = []
   /\ e = filesystem_error dir)
  \/ (stat_fails f dir = false
      /\ is_directory (fs w) dir = false
      /\ fst (init_checked f w jars apk dir) = []
      /\ e = invalid_argument
               (String.append "'" (String.append dir "' is not a directory")))
  \/ (exists p,
        e = filesystem_error p
        /\ (discovery_fault f (fs w) dir = Some p
            \/ module_listing_fault f (fs w) dir = Some p))
  \/ (exists t ev,
        fst (init_checked f w jars apk dir) = t ++ [ev]
        /\ caused_by w ev e).
Proof.
  destruct (stat_fails f dir) eqn:Hs.
  { unfold init_checked. rewrite Hs. simpl. intros H. injection H as <-.
    left. auto. }
  destruct (is_directory (fs w) dir) eqn:Hd.
  2:{ unfold init_checked. rewrite Hs, Hd. simpl. intros H. injection H as <-.
      right. left. auto. }
  intros H. right. right.
  assert (Hex : explained f w dir (init_checked f w jars apk dir)).
  { rewrite (init_checked_eq jars apk dir Hs Hd).
    apply explained_bind.
    - apply explained_of_fails_at_last. rewrite load_jars_eq.
      apply fails_at_last_for_each, fails_at_last_jar_body.
    - intros _. apply explained_bind.
      + unfold load_root_dexen_checked.
        destruct (discovery_fault f (fs w) dir) as [p|] eqn:Ef.
        * intros e' He'. simpl in He'. injection He' as <-.
          left. exists p. auto.
        * apply explained_of_fails_at_last. rewrite load_root_dexen_eq.
          apply fails_at_last_for_each, fails_at_last_load_body.
      + intros root_store. apply explained_bind.
        * unfold list_modules_checked.
          destruct (module_listing_fault f (fs w) dir) as [p|] eqn:Ef.
          -- intros e' He'. simpl in He'. injection He' as <-.
             left. exists p. auto.
          -- intros e' He'. discriminate.
        * intros modules. apply explained_bind.
          -- apply explained_of_fails_at_last, fails_at_last_for_each.
             intros. apply fails_at_last_load_module.
          -- intros stores e' He'. discriminate. }
  destruct (Hex e H) as [Hf|Hc]; [now left | now right].
Qed.

Lemma load_jars_trace (jars : string) : fst (load_jars w jars) <> [].
Proof.
  rewrite load_jars_eq. pose proof (split_length jars) as Hl.
  destruct (split delim jars) as [|tok rest]; [discriminate|].
  cbn [for_each]. rewrite jar_body_eq.
  destruct (load_jar_file w tok).
  - rewrite bind_inr. discriminate.
  - discriminate.
Qed.

(** X13. The check of the directory comes first: a run of [Tool::init]
    leaves no trace exactly when the status of the path cannot be read
    or the path is not a directory; the exception is the
    [filesystem_error] for the path in the first case and the
    invalid-argument error naming the path in the second, and the second
    is the only way for a run to end with that error having done
    nothing. *)
Theorem invalid_argument_iff_not_directory (jars apk dir : string) :
  (fst (init_checked f w jars apk dir) = []
   <-> stat_fails f dir = true \/ is_directory (fs w) dir = false)
  /\ (stat_fails f dir = true ->
      init_checked f w jars apk dir = ([], inl (filesystem_error dir)))
  /\ (init_checked f w jars apk dir
      = ([], inl (invalid_argument
                    (String.append "'"
                       (String.append dir "' is not a directory"))))
      <-> stat_fails f dir = false /\ is_directory (fs w) dir = false).
Proof.
  destruct (stat_fails f dir) eqn:Hs.
  { assert (E : init_checked f w jars apk dir
                = ([], inl (filesystem_error dir))).
    { unfold init_checked. now rewrite Hs. }
    rewrite E. simpl. split; [|split].
    - split; auto.
    - reflexivity.
    - split; [discriminate|]. intros [H _]. discriminate. }
  destruct (is_directory (fs w) dir) eqn:Hd.
  2:{ assert (E : init_checked f w jars apk dir
                  = ([], inl (invalid_argument
                                (String.append "'"
                                   (String.append dir
                                      "' is not a directory"))))).
      { unfold init_checked. now rewrite Hs, Hd. }
      rewrite E. simpl. split; [|split].
      - split; auto.
      - discriminate.
      - split; auto. }
  assert (Hne : fst (init_checked f w jars apk dir) <> []).
  { rewrite (init_checked_eq jars apk dir Hs Hd).
    match goal with
    | |- fst (bind ?m ?k) <> [] =>
        destruct (fst_bind_prefix m k) as (t & ->)
    end.
    pose proof (load_jars_trace jars) as Hj.
    destruct (fst (load_jars w jars)); [contradiction | discriminate]. }
  split; [|split].
  - split; [intros H; contradiction | intros [H|H]; discriminate].
  - discriminate.
  - split.
    + intros H. rewrite H in Hne. now contradiction Hne.
    + intros [_ H]. discriminate.
Qed.

End CheckedOutcomes.

(* ================================================================== *)
(** ** The further properties at work on the sample worlds              *)
(* ================================================================== *)

Section MoreInstances.

Lemma comparator_ignores_directory_witness :
  Str.rfind Path.preferred_separator "classes.dex" = None
  /\ Str.rfind Path.preferred_separator "secondary-1.dex" = None
  /\ dex_comparator (Path.slash "/a" "classes.dex")
       (Path.slash "/b/c" "secondary-1.dex")
     = dex_comparator "classes.dex" "secondary-1.dex".
Proof.
  split; [reflexivity|]. split; [reflexivity|].
  exact (comparator_ignores_directory "/a" "/b/c" "classes.dex"
           "secondary-1.dex" eq_refl eq_refl).
Defined.

(** Five names, three of them without a dash and two with the number 1. *)
Lemma sort_puts_undashed_first_witness :
  (List.length ["b-1.dex"; "classes2.dex"; "a-1.dex"; "classes3.dex";
                "classes.dex"] <= S_threshold)%nat
  /\ exists U D,
       std_sort dex_comparator
         ["b-1.dex"; "classes2.dex"; "a-1.dex"; "classes3.dex"; "classes.dex"]
       = U ++ D
       /\ Permutation
            ["b-1.dex"; "classes2.dex"; "a-1.dex"; "classes3.dex";
             "classes.dex"] (U ++ D)
       /\ Forall (fun p => dashed p = false) U
       /\ Forall (fun p => dashed p = true) D
       /\ ascending suffix_number D.
Proof.
  assert (H : (List.length ["b-1.dex"; "classes2.dex"; "a-1.dex";
                            "classes3.dex"; "classes.dex"]
               <= S_threshold)%nat).
  { unfold S_threshold. simpl. lia. }
  split; [exact H|].
  exact (sort_puts_undashed_first _ H).
Defined.

Lemma ties_keep_directory_order_witness :
  (List.length ["b-1.dex"; "classes2.dex"; "a-1.dex"; "classes3.dex";
                "classes.dex"] <= S_threshold)%nat
  /\ filter (tied_at 1)
       (std_sort dex_comparator
          ["b-1.dex"; "classes2.dex"; "a-1.dex"; "classes3.dex";
           "classes.dex"])
     = filter (tied_at 1)
         ["b-1.dex"; "classes2.dex"; "a-1.dex"; "classes3.dex"; "classes.dex"].
Proof.
  assert (H : (List.length ["b-1.dex"; "classes2.dex"; "a-1.dex";
                            "classes3.dex"; "classes.dex"]
               <= S_threshold)%nat).
  { unfold S_threshold. simpl. lia. }
  split; [exact H|].
  exact (ties_keep_directory_order _ 1 H).
Defined.

(** What the sort makes of these five names. *)
Example mixed_names_sorted :
  std_sort dex_comparator
    ["b-1.dex"; "classes2.dex"; "a-1.dex"; "classes3.dex"; "classes.dex"]
  = ["classes2.dex"; "classes3.dex"; "classes.dex"; "b-1.dex"; "a-1.dex"].
Proof. reflexivity. Qed.

Lemma primary_store_files_witness :
  (forall n, In n (readdir (fs (Sample.world [])) Sample.root) ->
             Str.rfind Path.preferred_separator n = None)
  /\ discovered_dexen (Sample.world []) Sample.root
     = map (Path.slash Sample.root)
         (filter (is_dex_entry (Sample.world []) Sample.root)
            (readdir (fs (Sample.world [])) Sample.root)).
Proof.
  split; [exact sample_entries_well_named|].
  exact (proj1 (primary_store_files (Sample.world []) Sample.root
                  sample_entries_well_named)).
Defined.

Lemma module_list_is_filtered_listing_witness :
  (forall n, In n (readdir (fs (Sample.world [])) Sample.root) ->
             Str.rfind Path.preferred_separator n = None)
  /\ list_modules (Sample.world []) Sample.root
     = filter (qualifiesb (Sample.world []) Sample.root)
         (readdir (fs (Sample.world [])) Sample.root).
Proof.
  split; [exact sample_entries_well_named|].
  exact (proj1 (module_list_is_filtered_listing (Sample.world []) Sample.root
                  sample_entries_well_named)).
Defined.

Lemma parsed_metadata_is_probed_witness :
  (forall n, In n (readdir (fs (Sample.world [])) Sample.root) ->
             Str.rfind Path.preferred_separator n = None)
  /\ Sample.root <> ""
  /\ Path.ends_with_separator Sample.root = false
  /\ In "modA" (list_modules (Sample.world []) Sample.root)
  /\ metadata_path_of Sample.root "modA"
     = probed_metadata (Path.slash Sample.root "modA")
  /\ status (fs (Sample.world [])) (metadata_path_of Sample.root "modA")
     = Some regular_file.
Proof.
  assert (Hne : Sample.root <> "") by discriminate.
  assert (Hin : In "modA" (list_modules (Sample.world []) Sample.root)).
  { vm_compute. now left. }
  split; [exact sample_entries_well_named|].
  split; [exact Hne|]. split; [reflexivity|]. split; [exact Hin|].
  exact (parsed_metadata_is_probed (Sample.world []) Sample.root "modA"
           sample_entries_well_named Hne eq_refl Hin).
Defined.

Lemma trailing_separator_is_doubled_witness :
  Path.ends_with_separator "/tmp/redex_dexen/" = true
  /\ Str.rfind Path.preferred_separator "modA" = None
  /\ metadata_path_of "/tmp/redex_dexen/" "modA"
     = "/tmp/redex_dexen//modA/modA.json"
  /\ probed_metadata (Path.slash "/tmp/redex_dexen/" "modA")
     = "/tmp/redex_dexen/modA/modA.json".
Proof.
  split; [reflexivity|]. split; [reflexivity|].
  destruct (trailing_separator_is_doubled "/tmp/redex_dexen/" "modA"
              eq_refl eq_refl) as (E1 & E2 & _).
  split; [exact E2 | exact E1].
Defined.

(** The directory [modB] of the sample disk is empty. *)
Lemma empty_directory_gives_empty_primary_store_witness :
  is_directory (fs (Sample.world [])) "/tmp/redex_dexen/modB" = true
  /\ Forall (fun j => load_jar_file (Sample.world []) j = true)
       (split delim Sample.good_jars)
  /\ discovered_dexen (Sample.world []) "/tmp/redex_dexen/modB" = []
  /\ list_modules (Sample.world []) "/tmp/redex_dexen/modB" = []
  /\ snd (init (Sample.world []) Sample.good_jars "/apk"
            "/tmp/redex_dexen/modB")
     = inr [DexStore_named "dex"].
Proof.
  assert (Hj : Forall (fun j => load_jar_file (Sample.world []) j = true)
                 (split delim Sample.good_jars)).
  { repeat constructor. }
  split; [reflexivity|]. split; [exact Hj|].
  split; [reflexivity|]. split; [reflexivity|].
  exact (f_equal snd
           (empty_directory_gives_empty_primary_store (Sample.world [])
              Sample.good_jars "/apk" "/tmp/redex_dexen/modB"
              eq_refl Hj eq_refl eq_refl)).
Defined.

Lemma joined_archives_register_in_order_witness :
  delim ","%char = true
  /\ split delim (join ","%char ["a.jar"; "c.jar"]) = ["a.jar"; "c.jar"]
  /\ jars_attempted
       (fst (init (Sample.world []) (join ","%char ["a.jar"; "c.jar"]) "/apk"
               Sample.root))
     = ["a.jar"; "c.jar"].
Proof.
  assert (Hne : ["a.jar"; "c.jar"] <> ([] : list string)) by discriminate.
  assert (Hf : Forall (fun n => delimiter_free n = true) ["a.jar"; "c.jar"]).
  { repeat constructor. }
  destruct (joined_archives_register_in_order (Sample.world []) ","%char
              ["a.jar"; "c.jar"] "/apk" Sample.root eq_refl Hne Hf)
    as (Hs & Hr).
  split; [reflexivity|]. split; [exact Hs|].
  apply Hr; [reflexivity | repeat constructor].
Defined.

Lemma sample_root_is_small (broken : list string) :
  (List.length (discovered_dexen (Sample.world broken) Sample.root)
   <= S_threshold)%nat.
Proof. unfold S_threshold. vm_compute. repeat constructor. Qed.

Lemma init_returns_iff_witness :
  (List.length (discovered_dexen (Sample.world []) Sample.root)
   <= S_threshold)%nat
  /\ init_checked Sample.no_faults (Sample.world []) Sample.good_jars "/apk"
       Sample.root
     = (Sample.good_trace, inr Sample.good_stores)
  /\ Sample.good_stores = expected_stores (Sample.world []) Sample.root.
Proof.
  assert (H : init_checked Sample.no_faults (Sample.world []) Sample.good_jars
                "/apk" Sample.root
              = (Sample.good_trace, inr Sample.good_stores)).
  { reflexivity. }
  split; [exact (sample_root_is_small [])|]. split; [exact H|].
  destruct (proj1 (init_returns_iff Sample.no_faults (Sample.world [])
                     Sample.good_jars "/apk" Sample.root Sample.good_trace
                     Sample.good_stores (sample_root_is_small [])) H)
    as (_ & _ & _ & _ & _ & _ & _ & _ & Hs).
  exact Hs.
Defined.

Lemma load_sequence_of_a_run_witness :
  init (Sample.world []) Sample.good_jars "/apk" Sample.root
  = (Sample.good_trace, inr Sample.good_stores)
  /\ jars_attempted Sample.good_trace = ["a.jar"; "c.jar"].
Proof.
  assert (H : init (Sample.world []) Sample.good_jars "/apk" Sample.root
              = (Sample.good_trace, inr Sample.good_stores)).
  { reflexivity. }
  split; [exact H|].
  exact (proj1 (load_sequence_of_a_run (Sample.world []) Sample.good_jars
                  "/apk" Sample.root Sample.good_trace Sample.good_stores H)).
Defined.

(** The status of [modB] cannot be read: discovery throws once the
    archives are registered. *)
Lemma exception_comes_from_last_call_witness :
  init_checked Sample.locked_modB (Sample.world []) Sample.good_jars "/apk"
    Sample.root
  = (jar_events ["a.jar"; "c.jar"],
     inl (filesystem_error "/tmp/redex_dexen/modB"))
  /\ exists p,
       filesystem_error "/tmp/redex_dexen/modB" = filesystem_error p
       /\ (discovery_fault Sample.locked_modB (fs (Sample.world []))
             Sample.root = Some p
           \/ module_listing_fault Sample.locked_modB (fs (Sample.world []))
                Sample.root = Some p).
Proof.
  split; [reflexivity|].
  destruct (exception_comes_from_last_call Sample.locked_modB
              (Sample.world []) Sample.good_jars "/apk" Sample.root
              (filesystem_error "/tmp/redex_dexen/modB") eq_refl)
    as [(H & _)|[(_ & H & _)|[H|(t & ev & _ & H)]]].
  - discriminate H.
  - discriminate H.
  - exact H.
  - destruct ev; simpl in H; try contradiction;
      destruct H as [H _]; try unfold jar_error in H; discriminate H.
Defined.

(** The status of the dexen directory itself cannot be read. *)
Example locked_root_throws_filesystem_error :
  init_checked Sample.locked_root (Sample.world []) Sample.good_jars "/apk"
    Sample.root
  = ([], inl (filesystem_error Sample.root)).
Proof. reflexivity. Qed.

Lemma primary_store_fails_fast_witness :
  init (Sample.world ["/tmp/redex_dexen/secondary-1.dex"]) Sample.good_jars
    "/apk" Sample.root
  = (jar_events ["a.jar"; "c.jar"]
     ++ load_events ["/tmp/redex_dexen/classes.dex";
                     "/tmp/redex_dexen/secondary-1.dex"],
     inl (load_failure "/tmp/redex_dexen/secondary-1.dex")).
Proof.
  refine (primary_store_fails_fast
            (Sample.world ["/tmp/redex_dexen/secondary-1.dex"])
            Sample.good_jars "/apk" Sample.root
            ["/tmp/redex_dexen/classes.dex"]
            "/tmp/redex_dexen/secondary-1.dex"
            ["/tmp/redex_dexen/secondary-2.dex";
             "/tmp/redex_dexen/secondary-10.dex"]
            (sample_root_is_small _) eq_refl _ eq_refl _ eq_refl);
    repeat constructor.
Defined.

Lemma unparsed_metadata_ends_the_run_witness :
  exists root_order,
    Permutation (discovered_dexen Sample.world_unparsed Sample.root) root_order
    /\ init Sample.world_unparsed Sample.good_jars "/apk" Sample.root
       = (jar_events (split delim Sample.good_jars)
          ++ load_events root_order
          ++ module_events Sample.world_unparsed Sample.root []
          ++ [ParseMetadata (metadata_path_of Sample.root "modA")],
          inl (parse_failure (metadata_path_of Sample.root "modA")))
    /\ ((List.length (discovered_dexen Sample.world_unparsed Sample.root)
         <= S_threshold)%nat ->
        root_order = sorted_dexen Sample.world_unparsed Sample.root).
Proof.
  refine (unparsed_metadata_ends_the_run Sample.world_unparsed
            Sample.good_jars "/apk" Sample.root [] "modA" []
            eq_refl _ _ eq_refl _ eq_refl).
  - repeat constructor.
  - vm_compute. repeat constructor.
  - constructor.
Defined.

Lemma module_store_fails_fast_witness :
  exists root_order,
    Permutation (discovered_dexen (Sample.world ["a.dex"]) Sample.root)
      root_order
    /\ init (Sample.world ["a.dex"]) Sample.good_jars "/apk" Sample.root
       = (jar_events (split delim Sample.good_jars)
          ++ load_events root_order
          ++ module_events (Sample.world ["a.dex"]) Sample.root []
          ++ ParseMetadata (metadata_path_of Sample.root "modA")
             :: load_events (["b.dex"] ++ ["a.dex"]),
          inl (load_failure "a.dex"))
    /\ ((List.length (discovered_dexen (Sample.world ["a.dex"]) Sample.root)
         <= S_threshold)%nat ->
        root_order = sorted_dexen (Sample.world ["a.dex"]) Sample.root).
Proof.
  refine (module_store_fails_fast (Sample.world ["a.dex"]) Sample.good_jars
            "/apk" Sample.root [] "modA" [] Sample.modA_metadata
            ["b.dex"] "a.dex" []
            eq_refl _ _ eq_refl _ eq_refl eq_refl _ eq_refl).
  - repeat constructor.
  - vm_compute. repeat constructor.
  - constructor.
  - repeat constructor.
Defined.

End MoreInstances.
